(** * Dependency breakdown and page-level hot-write analysis

    A shallow embedding of [src/analyzer/general_analyzer.cc]: the
    dependency classifier [analyzeDependTypes], the hot-write simulator
    [analyzeHotWrite] and the driver [analyze], followed by the properties
    of the analysis that the specification states.

    Conventions of the embedding.
    - [std::map<id_t, std::set<id_t>>] is a [gmap nat (gset nat)]; a
      range-for over a map or a set visits the keys in ascending order, which
      is written out with [merge_sort].
    - [int32_t] and [int64_t] values are integers of [Z]; an increment, and
      the sum of a start address and a length, wrap around ([wrap32],
      [wrap64]).
    - An access outside a vector or an array, an allocation of negative
      length and an [int] loop counter that would have to pass [INT32_MAX]
      give no result: the functions that can meet one return [option], and
      [None] stands for such a run.
    - [general_analyzer.hh] is not among the sources.  The record
      [TraceData] has the four fields the code reads, [id_t] is taken to be
      a natural number, the addresses are integers, and [PAGE_SIZE] is a
      parameter of the hot-write section. *)

From stdpp Require Import sorting numbers list gmap.

Open Scope Z_scope.

(** ** Fixed-width integers *)

Definition INT32_MIN : Z := -2147483648.
Definition INT32_MAX : Z := 2147483647.
Definition INT64_MAX : Z := 9223372036854775807.

(** Two's complement reduction of an integer to 32 and to 64 bits. *)
Definition wrap32 (z : Z) : Z := (z + 2 ^ 31) mod 2 ^ 32 - 2 ^ 31.
Definition wrap64 (z : Z) : Z := (z + 2 ^ 63) mod 2 ^ 64 - 2 ^ 63.

(** Conversion to [uint32_t]. *)
Definition to_uint32 (z : Z) : Z := z mod 2 ^ 32.

(** [x++] on an [int32_t] and on an [int64_t]. *)
Definition incr32 (c : Z) : Z := wrap32 (c + 1).
Definition incr64 (c : Z) : Z := wrap64 (c + 1).

(** ** Data model *)

(** Modelled from the spec: the record [TraceData] and the type [id_t],
    declared in [general_analyzer.hh], which is not among the sources. The
    fields are the four the analyzer reads; the specification gives [id] as
    the position of the request in the trace and the start address and the
    length as integers, in blocks. *)
Record TraceData : Type := mkTraceData {
  id : nat;
  isRead : bool;
  sLBA : Z;
  nLB : Z
}.

(** A read-centric or write-centric map. *)
Abbreviation Centric := (gmap nat (gset nat)).

(** [std::map::count]. *)
Definition map_count (m : Centric) (k : nat) : nat :=
  match m !! k with
  | Some _ => 1
  | None => 0
  end.

(** [std::map::operator[]]: the value under [k]; when [k] is not a key, an
    empty set is inserted under it first. *)
Definition map_subscript (m : Centric) (k : nat) : gset nat * Centric :=
  match m !! k with
  | Some s => (s, m)
  | None => (∅, <[k := ∅]> m)
  end.

(** Ascending iteration order of a [std::map] and of a [std::set]. *)
Definition key_le {K V : Type} (R : relation K) (a b : K * V) : Prop :=
  R a.1 b.1.

Global Instance key_le_dec {K V : Type} (R : relation K)
  `{!RelDecision R} (a b : K * V) : Decision (key_le R a b).
Proof. unfold key_le. apply _. Defined.

Definition map_in_order {K V : Type} `{Countable K} (R : relation K)
  `{!RelDecision R} (m : gmap K V) : list (K * V) :=
  merge_sort (key_le R) (map_to_list m).

Definition set_in_order (s : gset nat) : list nat :=
  merge_sort Nat.le (elements s).

(** A loop whose body may fail, run over the elements of a list. *)
Fixpoint forM {A S : Type} (body : A → S → option S) (l : list A) (s : S)
  : option S :=
  match l with
  | [] => Some s
  | x :: l' =>
      match body x s with
      | Some s' => forM body l' s'
      | None => None
      end
  end.

(** [for (int i = 0; i < n; i++) body], with [n] an [int64_t]. *)
Definition for_int {S : Type} (n : Z) (body : Z → S → option S) (s : S)
  : option S :=
  if decide (INT32_MAX < n) then None else forM body (seqZ 0 n) s.

(** ** The dependency classifier *)

(** The three counters the classifier writes through its pointers. *)
Record Counters : Type := mkCounters {
  indep : Z;
  depShort : Z;
  depLong : Z
}.

Definition bumpIndep (c : Counters) : Counters :=
  mkCounters (incr32 (indep c)) (depShort c) (depLong c).
Definition bumpShort (c : Counters) : Counters :=
  mkCounters (indep c) (incr32 (depShort c)) (depLong c).
Definition bumpLong (c : Counters) : Counters :=
  mkCounters (indep c) (depShort c) (incr32 (depLong c)).

(** Body of the loop of [analyzeDependTypes] (lines 49-58), on the map and
    the counters. *)
Definition classifyStep (isRead_ : bool) (st : Centric * Counters)
  (trace : TraceData) : Centric * Counters :=
  let '(mCentric, c) := st in
  if decide (isRead trace = isRead_) then
    if decide (map_count mCentric (id trace) ≠ 0%nat) then
      let '(s, mCentric') := map_subscript mCentric (id trace) in
      if decide (1 < size s)%nat then (mCentric', bumpLong c)
      else (mCentric', bumpShort c)
    else (mCentric, bumpIndep c)
  else (mCentric, c).

(** [analyzeDependTypes]: everything the function can reach through its
    pointer arguments, on return. *)
Definition analyzeDependTypes (vTraceData : list TraceData)
  (mCentric : Centric) (isRead_ : bool) (c : Counters)
  : list TraceData * Centric * Counters :=
  let '(mCentric', c') :=
    fold_left (classifyStep isRead_) vTraceData (mCentric, c) in
  (vTraceData, mCentric', c').

(** ** The hot-write simulator *)

(** [new int32_t[n]]: a negative length makes the allocation throw.  The
    cells of a fresh array hold no specified value; the loop of lines 88-90
    overwrites each of them before it is read. *)
Definition new_int32 (n : Z) : option (list Z) :=
  if decide (n < 0) then None else Some (replicate (Z.to_nat n) 0).

(** Reading and writing cell [i] of an array. *)
Definition array_get (a : list Z) (i : Z) : option Z :=
  if decide (0 ≤ i) then a !! Z.to_nat i else None.

Definition array_set (a : list Z) (i : Z) (v : Z) : option (list Z) :=
  if decide (0 ≤ i < Z.of_nat (length a)) then Some (<[Z.to_nat i := v]> a)
  else None.

(** [a[i]++] on an array of [int32_t]. *)
Definition array_incr (a : list Z) (i : Z) : option (list Z) :=
  c ← array_get a i; array_set a i (incr32 c).

Section HotWrite.

(** Blocks per page: the macro [PAGE_SIZE] of the missing header. *)
Variable PAGE_SIZE : Z.

(** First and last page of a request (lines 80-83 and 94-96); [/] on
    C++ integers truncates. The sum of the start address and the length is
    formed in a fixed width before it is divided: it is reduced to 64 bits,
    two's complement, the width of the [int64_t] that receives the
    quotient. *)
Definition pageStartOf (t : TraceData) : Z := sLBA t `quot` PAGE_SIZE.
Definition pageEndOf (t : TraceData) : Z :=
  wrap64 (sLBA t + nLB t) `quot` PAGE_SIZE.
Definition pageNumOf (t : TraceData) : Z :=
  pageEndOf t - pageStartOf t + 1.

(** Lines 98-102, for a write spanning [pageStart .. pageEnd] and a read
    spanning [readStartReal .. readEndReal]. *)
Definition readStartOverlap (pageStart readStartReal : Z) : Z :=
  Z.max pageStart readStartReal.
Definition readEndOverlap (pageEnd readEndReal : Z) : Z :=
  Z.min pageEnd readEndReal.
Definition readOffset (pageStart readStartReal : Z) : Z :=
  readStartOverlap pageStart readStartReal - pageStart.
Definition readNum (pageStart pageEnd readStartReal readEndReal : Z) : Z :=
  readEndOverlap pageEnd readEndReal
  - readStartOverlap pageStart readStartReal + 1.

(** Body of the loop over the dependent reads of one write
    (lines 94-106). *)
Definition simulateRead (vTraceData : list TraceData)
  (pageStart pageEnd : Z) (read : nat) (readCounts : list Z)
  : option (list Z) :=
  r ← vTraceData !! read;
  let readStartReal := pageStartOf r in
  let readEndReal := pageEndOf r in
  for_int (readNum pageStart pageEnd readStartReal readEndReal)
    (λ i rc, array_incr rc (readOffset pageStart readStartReal + i))
    readCounts.

(** The counter array of a write spanning [pageStart .. pageEnd] once its
    dependent reads are simulated (lines 84-107). *)
Definition simulatePages (vTraceData : list TraceData)
  (pageStart pageEnd : Z) (reads : gset nat) : option (list Z) :=
  let pageNum := pageEnd - pageStart + 1 in
  readCounts ← new_int32 pageNum;
  readCounts ← for_int pageNum (λ i rc, array_set rc i 0) readCounts;
  forM (simulateRead vTraceData pageStart pageEnd)
    (set_in_order reads) readCounts.

(** Body of the loop over the write-centric map (lines 80-112): the
    counters of the write are appended to [readCountsTotal], a vector of
    [uint32_t]. *)
Definition simulateWrite (vTraceData : list TraceData)
  (write : nat * gset nat) (readCountsTotal : list Z) : option (list Z) :=
  w ← vTraceData !! write.1;
  let pageStart := pageStartOf w in
  let pageEnd := pageEndOf w in
  let pageNum := pageEnd - pageStart + 1 in
  readCounts ← simulatePages vTraceData pageStart pageEnd write.2;
  for_int pageNum
    (λ i total, c ← array_get readCounts i; Some (total ++ [to_uint32 c]))
    readCountsTotal.

(** The lambda of line 117: [val] is converted to [int], the key type is
    [int32_t], the tally an [int64_t]. *)
Definition countStep (countDuplicate : gmap Z Z) (val : Z) : gmap Z Z :=
  let val := wrap32 val in
  <[val := incr64 (default 0 (countDuplicate !! val))]> countDuplicate.

(** The flat sequence of observed counts (lines 76-113). *)
Definition hotWriteCounts (vTraceData : list TraceData)
  (mWriteCentric : Centric) : option (list Z) :=
  forM (simulateWrite vTraceData) (map_in_order Nat.le mWriteCentric) [].

(** [analyzeHotWrite]: the two rows printed under [[HotWrite]], the
    distinct counts and their numbers of occurrences. *)
Definition analyzeHotWrite (vTraceData : list TraceData)
  (mWriteCentric : Centric) : option (list Z * list Z) :=
  readCountsTotal ← hotWriteCounts vTraceData mWriteCentric;
  let countDuplicate := fold_left countStep readCountsTotal ∅ in
  let rows := map_in_order Z.le countDuplicate in
  Some (rows.*1, rows.*2).

(** ** The driver *)

Definition zeroCounters : Counters := mkCounters 0 0 0.

(** What [analyze] prints. *)
Record Report : Type := mkReport {
  readBD : Counters;
  writeBD : Counters;
  hotWrite : list Z * list Z
}.

(** The objects [analyze] holds pointers to. *)
Record Inputs : Type := mkInputs {
  vTraceData : list TraceData;
  mReadCentric : Centric;
  mWriteCentric : Centric
}.

(** [analyze]: the inputs as the run leaves them, and the report. *)
Definition analyze (inp : Inputs) (pageNum : Z) : option (Inputs * Report) :=
  let '(v, mR, reads) :=
    analyzeDependTypes (vTraceData inp) (mReadCentric inp) true
      zeroCounters in
  let '(v, mW, writes) :=
    analyzeDependTypes v (mWriteCentric inp) false zeroCounters in
  hot ← analyzeHotWrite v mW;
  Some (mkInputs v mR mW, mkReport reads writes hot).

End HotWrite.


(** ** The classification, as a function of the map *)

(** The branch of lines 50-57 a request is counted in. *)
Inductive DependType : Type := Independent | DepShort | DepLong.

Global Instance DependType_eq_dec : EqDecision DependType.
Proof. solve_decision. Defined.

Definition dependType (mCentric : Centric) (trace : TraceData) : DependType :=
  match mCentric !! id trace with
  | None => Independent
  | Some s => if decide (1 < size s)%nat then DepLong else DepShort
  end.

(** Number of requests of a direction, and of those in one branch. *)
Definition requestsOf (isRead_ : bool) (v : list TraceData) : Z :=
  Z.of_nat (length (filter (λ t, isRead t = isRead_) v)).

Definition tally (isRead_ : bool) (mCentric : Centric) (d : DependType)
  (v : list TraceData) : Z :=
  Z.of_nat (length
    (filter (λ t, isRead t = isRead_ ∧ dependType mCentric t = d) v)).

(** The counters on entry are [int32_t] values that can take [a], [b] and
    [d] increments. *)
Definition counters_fit (c : Counters) (a b d : Z) : Prop :=
  (INT32_MIN ≤ indep c ∧ indep c + a ≤ INT32_MAX) ∧
  (INT32_MIN ≤ depShort c ∧ depShort c + b ≤ INT32_MAX) ∧
  (INT32_MIN ≤ depLong c ∧ depLong c + d ≤ INT32_MAX).

(** ** Vocabulary of the hot-write properties *)

Definition sumZ (l : list Z) : Z := foldr Z.add 0 l.

(** Page-span length of the request stored at an index of the trace. *)
Definition spanOf (PAGE_SIZE : Z) (v : list TraceData) (w : nat) : Z :=
  from_option (pageNumOf PAGE_SIZE) 0 (v !! w).

(** Sum of the page-span lengths of the writes that are keys of a map. *)
Definition spanTotal (PAGE_SIZE : Z) (v : list TraceData) (m : Centric) : Z :=
  sumZ ((λ p, spanOf PAGE_SIZE v p.1) <$> map_to_list m).

(** The inputs [analyzeHotWrite] relies on: a key of the map and the ids in
    its set are positions of the trace, and the write spans a number of pages
    that is not negative and that an [int] can count. *)
Definition write_ok (PAGE_SIZE : Z) (v : list TraceData) (w : nat)
  (reads : gset nat) : Prop :=
  (∃ t, v !! w = Some t ∧ 0 ≤ pageNumOf PAGE_SIZE t ≤ INT32_MAX) ∧
  set_Forall (λ read, is_Some (v !! read)) reads.

Global Instance write_ok_dec (PAGE_SIZE : Z) (v : list TraceData) (w : nat)
  (reads : gset nat) : Decision (write_ok PAGE_SIZE v w reads).
Proof.
  unfold write_ok. apply and_dec; [|apply _].
  destruct (v !! w) as [t|].
  - destruct (decide (0 ≤ pageNumOf PAGE_SIZE t ≤ INT32_MAX)) as [Hs|Hs].
    + left. by exists t.
    + right. intros (t' & Ht' & Hs'). by injection Ht' as ->.
  - right. by intros (t & Ht & _).
Defined.

Definition hot_inputs_ok (PAGE_SIZE : Z) (v : list TraceData) (m : Centric)
  : Prop :=
  map_Forall (write_ok PAGE_SIZE v) m.

(** Sum of the tallies of a histogram. *)
Definition occurrences (h : gmap Z Z) : Z := sumZ (map_to_list h).*2.

(** Page [pageStart + j] of a write spanning [pageStart .. pageEnd] lies in
    the span of the request [r]. *)
Definition in_overlap (PAGE_SIZE pageStart pageEnd : Z) (r : TraceData)
  (j : nat) : Prop :=
  readStartOverlap pageStart (pageStartOf PAGE_SIZE r)
  ≤ pageStart + Z.of_nat j
  ≤ readEndOverlap pageEnd (pageEndOf PAGE_SIZE r).

Global Instance in_overlap_dec (PAGE_SIZE pageStart pageEnd : Z)
  (r : TraceData) (j : nat) :
  Decision (in_overlap PAGE_SIZE pageStart pageEnd r j).
Proof. unfold in_overlap. apply _. Defined.

(** ** Sample inputs *)

(** A trace of two writes and four reads. Reads 1 and 2 cover the first
    write, read 3 touches both writes, read 4 touches none. *)
Definition sampleTrace : list TraceData :=
  [ mkTraceData 0 false 0 8191;
    mkTraceData 1 true 0 8192;
    mkTraceData 2 true 0 8192;
    mkTraceData 3 true 4096 100;
    mkTraceData 4 true 100000 8;
    mkTraceData 5 false 4100 10 ].

Definition sampleReadCentric : Centric :=
  {[ 1%nat := {[0%nat]}; 2%nat := {[0%nat]}; 3%nat := {[0%nat; 5%nat]} ]}.

Definition sampleWriteCentric : Centric :=
  {[ 0%nat := {[1%nat; 2%nat; 3%nat]}; 5%nat := {[3%nat]} ]}.

(** A map that breaks the rule that a key has a dependent. *)
Definition emptyEntry : Centric := {[ 1%nat := ∅ ]}.

(** The first write of [sampleTrace] alone, with its three reads. *)
Definition firstWriteOnly : Centric := {[ 0%nat := {[1%nat; 2%nat; 3%nat]} ]}.

(** A write of 8192 blocks from block 0, and two reads inside its first
    8192 blocks. *)
Definition alignedTrace : list TraceData :=
  [ mkTraceData 0 false 0 8192;
    mkTraceData 1 true 100 5000;
    mkTraceData 2 true 100 5000 ].

Definition alignedWriteCentric : Centric := {[ 0%nat := {[1%nat; 2%nat]} ]}.

Definition sampleInputs : Inputs :=
  mkInputs sampleTrace sampleReadCentric sampleWriteCentric.

(** ** Vocabulary of the further properties *)

(** The request stored at position [read] has page [pageStart + j] of the
    write in its span. *)
Definition covers (PAGE_SIZE : Z) (v : list TraceData)
  (pageStart pageEnd : Z) (j : nat) (read : nat) : Prop :=
  match v !! read with
  | Some r => in_overlap PAGE_SIZE pageStart pageEnd r j
  | None => False
  end.

Global Instance covers_dec (PAGE_SIZE : Z) (v : list TraceData)
  (pageStart pageEnd : Z) (j : nat) (read : nat) :
  Decision (covers PAGE_SIZE v pageStart pageEnd j read).
Proof. unfold covers. destruct (v !! read); apply _. Defined.

(** Number of elements of [readCountsTotal] that the lambda of line 117
    files under the key [k]. *)
Definition countOf (k : Z) (l : list Z) : Z :=
  Z.of_nat (length (filter (λ x, wrap32 x = k) l)).

(** The part of a record the simulator computes with. *)
Definition extent (t : TraceData) : Z * Z := (sLBA t, nLB t).

(** The counter array [rc] is the one the simulator builds for the entry
    [p] of the write-centric map. *)
Definition counters_of (PAGE_SIZE : Z) (v : list TraceData)
  (p : nat * gset nat) (rc : list Z) : Prop :=
  ∃ t, v !! p.1 = Some t ∧
       simulatePages PAGE_SIZE v (pageStartOf PAGE_SIZE t)
         (pageEndOf PAGE_SIZE t) p.2 = Some rc.

(** * Properties *)

(** ** Fixed-width arithmetic *)

Lemma incr32_in_range (c : Z) :
  INT32_MIN ≤ c < INT32_MAX → incr32 c = c + 1.
Proof.
  unfold incr32, wrap32, INT32_MIN, INT32_MAX. intros Hc.
  rewrite Z.mod_small; lia.
Qed.

Lemma incr64_in_range (c : Z) :
  0 ≤ c < INT64_MAX → incr64 c = c + 1.
Proof.
  unfold incr64, wrap64, INT64_MAX. intros Hc.
  rewrite Z.mod_small; lia.
Qed.

Lemma wrap64_in_range (z : Z) :
  - 2 ^ 63 ≤ z ≤ INT64_MAX → wrap64 z = z.
Proof.
  unfold wrap64, INT64_MAX. intros Hz. rewrite Z.mod_small; lia.
Qed.

(** A counter comes back unchanged from [readCountsTotal], where it is kept
    as a [uint32_t], into the [int] argument of the lambda of line 117. *)
Lemma wrap32_to_uint32 (c : Z) :
  INT32_MIN ≤ c ≤ INT32_MAX → wrap32 (to_uint32 c) = c.
Proof.
  unfold wrap32, to_uint32, INT32_MIN, INT32_MAX. intros Hc.
  destruct (decide (0 ≤ c)) as [Hpos|Hneg].
  - rewrite (Z.mod_small c) by lia. rewrite Z.mod_small; lia.
  - replace (c mod 2 ^ 32) with (c + 2 ^ 32).
    + replace (c + 2 ^ 32 + 2 ^ 31) with (c + 2 ^ 31 + 1 * 2 ^ 32) by lia.
      rewrite Z.mod_add by lia. rewrite Z.mod_small; lia.
    + apply Z.mod_unique with (q := -1); lia.
Qed.

(** ** The classifier leaves its map alone *)

(** A subscript on a key that is absent does change the map: the guard of
    line 50 is what keeps the classifier from inserting. *)
Lemma map_subscript_absent (m : Centric) (k : nat) :
  m !! k = None → (map_subscript m k).2 !! k = Some ∅.
Proof.
  unfold map_subscript. intros ->. simpl. apply lookup_insert_eq.
Qed.

Lemma classifyStep_eq (isRead_ : bool) (m : Centric) (c : Counters)
  (t : TraceData) :
  classifyStep isRead_ (m, c) t =
  (m, if decide (isRead t = isRead_) then
        match dependType m t with
        | Independent => bumpIndep c
        | DepShort => bumpShort c
        | DepLong => bumpLong c
        end
      else c).
Proof.
  unfold classifyStep, dependType, map_count, map_subscript.
  destruct (decide (isRead t = isRead_)); [|reflexivity].
  destruct (m !! id t) as [s|]; simpl.
  - destruct (decide (1 < size s)%nat); reflexivity.
  - reflexivity.
Qed.

Lemma classify_fold_map (isRead_ : bool) (v : list TraceData) (m : Centric)
  (c : Counters) :
  (fold_left (classifyStep isRead_) v (m, c)).1 = m.
Proof.
  revert c. induction v as [|t v IH]; intros c; [reflexivity|].
  cbn [fold_left]. rewrite classifyStep_eq. apply IH.
Qed.

Lemma analyzeDependTypes_frame (v : list TraceData) (m : Centric)
  (isRead_ : bool) (c : Counters) :
  (analyzeDependTypes v m isRead_ c).1 = (v, m).
Proof.
  unfold analyzeDependTypes.
  pose proof (classify_fold_map isRead_ v m c) as Hm.
  destruct (fold_left _ v (m, c)) as [m' c']. simpl in *. by subst.
Qed.

Lemma analyzeDependTypes_snoc (pre : list TraceData) (t : TraceData)
  (m : Centric) (isRead_ : bool) (c : Counters) :
  (analyzeDependTypes (pre ++ [t]) m isRead_ c).2 =
  (classifyStep isRead_ (m, (analyzeDependTypes pre m isRead_ c).2) t).2.
Proof.
  unfold analyzeDependTypes. rewrite fold_left_app. cbn [fold_left].
  pose proof (classify_fold_map isRead_ pre m c) as Hm.
  destruct (fold_left _ pre (m, c)) as [m' c']. cbn [fst] in Hm. subst m'.
  cbn [snd]. destruct (classifyStep isRead_ (m, c') t). reflexivity.
Qed.

(** ** Counting by branch *)

Lemma tally_nil (isRead_ : bool) (m : Centric) (d : DependType) :
  tally isRead_ m d [] = 0.
Proof. reflexivity. Qed.

Lemma tally_cons (isRead_ : bool) (m : Centric) (d : DependType)
  (t : TraceData) (v : list TraceData) :
  tally isRead_ m d (t :: v) =
  (if decide (isRead t = isRead_ ∧ dependType m t = d) then 1 else 0)
  + tally isRead_ m d v.
Proof.
  unfold tally. rewrite filter_cons. case_decide; cbn [length]; lia.
Qed.

Lemma tally_nonneg (isRead_ : bool) (m : Centric) (d : DependType)
  (v : list TraceData) : 0 ≤ tally isRead_ m d v.
Proof. unfold tally. lia. Qed.

Lemma requestsOf_cons (isRead_ : bool) (t : TraceData) (v : list TraceData) :
  requestsOf isRead_ (t :: v) =
  (if decide (isRead t = isRead_) then 1 else 0) + requestsOf isRead_ v.
Proof.
  unfold requestsOf. rewrite filter_cons. case_decide; cbn [length]; lia.
Qed.

(** The three branches partition the requests of a direction. *)
Lemma tally_partition (isRead_ : bool) (m : Centric) (v : list TraceData) :
  tally isRead_ m Independent v + tally isRead_ m DepShort v
  + tally isRead_ m DepLong v = requestsOf isRead_ v.
Proof.
  induction v as [|t v IH]; [reflexivity|].
  rewrite !tally_cons, requestsOf_cons.
  destruct (dependType m t); repeat case_decide; try lia; exfalso; intuition congruence.
Qed.

Lemma classify_fold_counts (isRead_ : bool) (m : Centric)
  (v : list TraceData) (c : Counters) :
  counters_fit c (tally isRead_ m Independent v) (tally isRead_ m DepShort v)
    (tally isRead_ m DepLong v) →
  fold_left (classifyStep isRead_) v (m, c) =
  (m, mkCounters (indep c + tally isRead_ m Independent v)
        (depShort c + tally isRead_ m DepShort v)
        (depLong c + tally isRead_ m DepLong v)).
Proof.
  revert c. induction v as [|t v IH]; intros [ci cs cl]; unfold counters_fit.
  - rewrite !tally_nil. cbn. intros _. by rewrite !Z.add_0_r.
  - rewrite !tally_cons. cbn [fold_left indep depShort depLong].
    pose proof (tally_nonneg isRead_ m Independent v).
    pose proof (tally_nonneg isRead_ m DepShort v).
    pose proof (tally_nonneg isRead_ m DepLong v).
    rewrite classifyStep_eq. intros Hfit.
    destruct (decide (isRead t = isRead_)) as [Hdir|Hdir].
    + destruct (dependType m t) eqn:Hd;
        unfold bumpIndep, bumpShort, bumpLong;
        cbn [indep depShort depLong];
        repeat case_decide; try (exfalso; intuition congruence);
        rewrite incr32_in_range by lia;
        rewrite IH by (unfold counters_fit; cbn; lia);
        cbn [indep depShort depLong]; do 2 f_equal; lia.
    + repeat case_decide; try (exfalso; intuition congruence).
      rewrite IH by (unfold counters_fit; cbn; lia).
      cbn [indep depShort depLong]. do 2 f_equal; lia.
Qed.

(** ** The classifier, request by request *)

(** C1. A request of the direction asked for is classified by a lookup of
    its id in the map that was passed in: no key, it is counted independent;
    a dependent set of size exactly 1, singly-dependent; a set of size above
    1, multiply-dependent: the counter of its class goes up by one and the
    two others keep their values.  A request of the other direction is not
    counted.  Stated on the counters after the requests [pre] and after
    [pre] followed by the request [t]; the counter that goes up is an
    [int32_t] below [INT32_MAX]. *)
Theorem classifier_cases (pre : list TraceData) (t : TraceData) (m : Centric)
  (isRead_ : bool) (c : Counters) :
  let before := (analyzeDependTypes pre m isRead_ c).2 in
  let after := (analyzeDependTypes (pre ++ [t]) m isRead_ c).2 in
  (isRead t = isRead_ → m !! id t = None →
   INT32_MIN ≤ indep before < INT32_MAX →
     indep after = indep before + 1 ∧
     depShort after = depShort before ∧
     depLong after = depLong before) ∧
  (isRead t = isRead_ → ∀ s, m !! id t = Some s → size s = 1%nat →
   INT32_MIN ≤ depShort before < INT32_MAX →
     indep after = indep before ∧
     depShort after = depShort before + 1 ∧
     depLong after = depLong before) ∧
  (isRead t = isRead_ → ∀ s, m !! id t = Some s → (1 < size s)%nat →
   INT32_MIN ≤ depLong before < INT32_MAX →
     indep after = indep before ∧
     depShort after = depShort before ∧
     depLong after = depLong before + 1) ∧
  (isRead t ≠ isRead_ → after = before).
Proof.
  intros before after. subst before after.
  rewrite analyzeDependTypes_snoc, classifyStep_eq. cbn [snd].
  unfold dependType. split; [|split; [|split]].
  - intros Hd Hm Hc. rewrite Hm, decide_True by done.
    cbn [bumpIndep indep depShort depLong].
    by rewrite incr32_in_range.
  - intros Hd s Hm Hs Hc. rewrite Hm, Hs, decide_True by done.
    rewrite decide_False by lia. cbn [bumpShort indep depShort depLong].
    by rewrite incr32_in_range.
  - intros Hd s Hm Hs Hc. rewrite Hm, decide_True by done.
    rewrite decide_True by done. cbn [bumpLong indep depShort depLong].
    by rewrite incr32_in_range.
  - intros Hd. by rewrite decide_False.
Qed.

Lemma classifier_cases_witness :
  let run v := (analyzeDependTypes v sampleReadCentric true zeroCounters).2 in
  indep (run (take 5 sampleTrace)) = indep (run (take 4 sampleTrace)) + 1 ∧
  depShort (run (take 2 sampleTrace))
    = depShort (run (take 1 sampleTrace)) + 1 ∧
  depLong (run (take 4 sampleTrace)) = depLong (run (take 3 sampleTrace)) + 1 ∧
  run (take 1 sampleTrace) = run (take 0 sampleTrace).
Proof.
  cbv zeta. split; [|split; [|split]].
  - apply (classifier_cases (take 4 sampleTrace) (mkTraceData 4 true 100000 8)
             sampleReadCentric true zeroCounters);
      [reflexivity | reflexivity |].
    vm_compute. split; [discriminate | reflexivity].
  - apply (classifier_cases (take 1 sampleTrace) (mkTraceData 1 true 0 8192)
             sampleReadCentric true zeroCounters) with (s := {[0%nat]});
      [reflexivity | reflexivity | reflexivity |].
    vm_compute. split; [discriminate | reflexivity].
  - apply (classifier_cases (take 3 sampleTrace) (mkTraceData 3 true 4096 100)
             sampleReadCentric true zeroCounters)
      with (s := {[0%nat; 5%nat]}); [reflexivity | reflexivity | |].
    + vm_compute. lia.
    + vm_compute. split; [discriminate | reflexivity].
  - apply (classifier_cases (take 0 sampleTrace) (mkTraceData 0 false 0 8191)
             sampleReadCentric true zeroCounters). discriminate.
Defined.

(** C2, against the claim. A read whose id is a key with an empty dependent
    set is not counted like a read without an entry: the trace of the single
    read 1 gives 0/1/0 under [emptyEntry] and 1/0/0 under the empty map. *)
Lemma empty_entry_not_independent :
  let t := mkTraceData 1 true 0 8 in
  (analyzeDependTypes [t] emptyEntry true zeroCounters).2 = mkCounters 0 1 0 ∧
  (analyzeDependTypes [t] ∅ true zeroCounters).2 = mkCounters 1 0 0 ∧
  (analyzeDependTypes [t] emptyEntry true zeroCounters).2 ≠
  (analyzeDependTypes [t] ∅ true zeroCounters).2.
Proof.
  cbv zeta. split; [|split].
  - vm_compute. reflexivity.
  - vm_compute. reflexivity.
  - vm_compute. discriminate.
Qed.

(** C2, amended. A request of the direction asked for whose id is a key
    with an empty dependent set takes the branch of the present keys, and
    its set being no larger than 1 it is counted singly-dependent: the
    counter of the singly-dependent requests goes up by one, the counters of
    the independent and of the multiply-dependent ones keep their values.
    The counter that goes up is an [int32_t] below [INT32_MAX]. *)
Theorem empty_entry_counted_single (pre : list TraceData) (t : TraceData)
  (m : Centric) (isRead_ : bool) (c : Counters) :
  let before := (analyzeDependTypes pre m isRead_ c).2 in
  let after := (analyzeDependTypes (pre ++ [t]) m isRead_ c).2 in
  isRead t = isRead_ → m !! id t = Some ∅ →
  INT32_MIN ≤ depShort before < INT32_MAX →
  indep after = indep before ∧
  depShort after = depShort before + 1 ∧
  depLong after = depLong before.
Proof.
  intros before after Hd Hm Hc. subst before after.
  rewrite analyzeDependTypes_snoc, classifyStep_eq. cbn [snd].
  unfold dependType. rewrite Hm, decide_True by done.
  rewrite decide_False by (rewrite size_empty; lia).
  cbn [bumpShort indep depShort depLong].
  by rewrite incr32_in_range.
Qed.

Lemma empty_entry_counted_single_witness :
  let before := (analyzeDependTypes [] emptyEntry true zeroCounters).2 in
  let after :=
    (analyzeDependTypes ([] ++ [mkTraceData 1 true 0 8]) emptyEntry true
       zeroCounters).2 in
  indep after = indep before ∧
  depShort after = depShort before + 1 ∧
  depLong after = depLong before.
Proof.
  apply (empty_entry_counted_single [] (mkTraceData 1 true 0 8) emptyEntry
           true zeroCounters); [reflexivity | reflexivity |].
  vm_compute. split; [discriminate | reflexivity].
Defined.

(** ** The classifier as a whole *)

(** C8. The classifier writes nothing but its three counters: the trace and
    the map it returns are the ones it was given. Each id it finds in the
    map is read with the subscript operator, which never inserts here. *)
Theorem classifier_frame (v : list TraceData) (m : Centric) (isRead_ : bool)
  (c : Counters) :
  ∃ c', analyzeDependTypes v m isRead_ c = (v, m, c').
Proof.
  pose proof (analyzeDependTypes_frame v m isRead_ c) as H.
  destruct (analyzeDependTypes v m isRead_ c) as [vm c'].
  cbn [fst] in H. subst vm. by exists c'.
Qed.

Lemma analyzeDependTypes_counts (v : list TraceData) (m : Centric)
  (isRead_ : bool) (c : Counters) :
  counters_fit c (tally isRead_ m Independent v) (tally isRead_ m DepShort v)
    (tally isRead_ m DepLong v) →
  analyzeDependTypes v m isRead_ c =
  (v, m, mkCounters (indep c + tally isRead_ m Independent v)
           (depShort c + tally isRead_ m DepShort v)
           (depLong c + tally isRead_ m DepLong v)).
Proof.
  intros Hfit. unfold analyzeDependTypes.
  by rewrite classify_fold_counts.
Qed.

(** C4. Started from zero, the three counts add up to the number of requests
    of the direction, each request being in exactly one of them. The counters
    are 32-bit, so the number of requests is taken to fit in one. *)
Theorem breakdown_sums_to_total (v : list TraceData) (m : Centric)
  (isRead_ : bool) :
  requestsOf isRead_ v ≤ INT32_MAX →
  let out := (analyzeDependTypes v m isRead_ zeroCounters).2 in
  indep out = tally isRead_ m Independent v ∧
  depShort out = tally isRead_ m DepShort v ∧
  depLong out = tally isRead_ m DepLong v ∧
  0 ≤ indep out ∧ 0 ≤ depShort out ∧ 0 ≤ depLong out ∧
  indep out + depShort out + depLong out = requestsOf isRead_ v.
Proof.
  intros Hn out. subst out.
  pose proof (tally_partition isRead_ m v) as Hsum.
  pose proof (tally_nonneg isRead_ m Independent v).
  pose proof (tally_nonneg isRead_ m DepShort v).
  pose proof (tally_nonneg isRead_ m DepLong v).
  rewrite analyzeDependTypes_counts.
  - cbn. lia.
  - unfold counters_fit, INT32_MIN. cbn. lia.
Qed.

Lemma breakdown_sums_to_total_witness :
  let out :=
    (analyzeDependTypes sampleTrace sampleReadCentric true zeroCounters).2 in
  indep out + depShort out + depLong out = 4.
Proof.
  assert (Hn : requestsOf true sampleTrace ≤ INT32_MAX)
    by (vm_compute; discriminate).
  exact (proj2 (proj2 (proj2 (proj2 (proj2 (proj2
    (breakdown_sums_to_total sampleTrace sampleReadCentric true Hn))))))).
Defined.

(** C10. The classifier adds to the counters it is handed and never resets
    them: each leaves with its value on entry plus the number of requests
    that took its branch, whenever that stays within 32 bits. So the three
    leave with their sum on entry plus the number of requests of the
    direction, and add up to that number exactly when they entered adding up
    to zero, as they do in [analyze]. *)
Theorem classifier_accumulates (v : list TraceData) (m : Centric)
  (isRead_ : bool) (c : Counters) :
  counters_fit c (tally isRead_ m Independent v) (tally isRead_ m DepShort v)
    (tally isRead_ m DepLong v) →
  let out := (analyzeDependTypes v m isRead_ c).2 in
  indep out = indep c + tally isRead_ m Independent v ∧
  depShort out = depShort c + tally isRead_ m DepShort v ∧
  depLong out = depLong c + tally isRead_ m DepLong v ∧
  indep out + depShort out + depLong out =
    indep c + depShort c + depLong c + requestsOf isRead_ v ∧
  (indep out + depShort out + depLong out = requestsOf isRead_ v ↔
   indep c + depShort c + depLong c = 0).
Proof.
  intros Hfit out. subst out.
  pose proof (tally_partition isRead_ m v) as Hsum.
  rewrite analyzeDependTypes_counts by done. cbn. lia.
Qed.

Lemma classifier_accumulates_witness :
  let out :=
    (analyzeDependTypes sampleTrace sampleReadCentric true
       (mkCounters 10 20 30)).2 in
  indep out = 11 ∧ depShort out = 22 ∧ depLong out = 31.
Proof.
  assert (Hfit : counters_fit (mkCounters 10 20 30)
            (tally true sampleReadCentric Independent sampleTrace)
            (tally true sampleReadCentric DepShort sampleTrace)
            (tally true sampleReadCentric DepLong sampleTrace)).
  { unfold counters_fit. vm_compute. repeat split; discriminate. }
  pose proof (classifier_accumulates sampleTrace sampleReadCentric true
                (mkCounters 10 20 30) Hfit) as (H1 & H2 & H3 & _).
  split; [exact H1 | split; [exact H2 | exact H3]].
Defined.

(** ** Sums *)

Lemma sumZ_perm (l1 l2 : list Z) : l1 ≡ₚ l2 → sumZ l1 = sumZ l2.
Proof.
  induction 1 as [|x l1 l2 _ IH|x y l|l1 l2 l3 _ IH1 _ IH2]; cbn in *;
    unfold sumZ in *; lia.
Qed.

Lemma sumZ_nonneg (l : list Z) : Forall (λ x, 0 ≤ x) l → 0 ≤ sumZ l.
Proof.
  induction 1 as [|x l Hx _ IH]; cbn; [lia|]. fold (sumZ l). lia.
Qed.

(** ** Loops *)

(** A loop whose body keeps an invariant of the state runs to its end and
    keeps it. *)
Lemma forM_invariant {A S : Type} (body : A → S → option S)
  (P : A → Prop) (I : S → Prop) (l : list A) (s : S) :
  (∀ x s, P x → I s → ∃ s', body x s = Some s' ∧ I s') →
  Forall P l → I s → ∃ s', forM body l s = Some s' ∧ I s'.
Proof.
  intros Hbody Hl. revert s.
  induction Hl as [|x l Hx _ IH]; intros s Hs; cbn; [by exists s|].
  destruct (Hbody x s Hx Hs) as (s' & -> & Hs'). by apply IH.
Qed.

Lemma for_int_nothing {S : Type} (n : Z) (body : Z → S → option S) (s : S) :
  n ≤ 0 → for_int n body s = Some s.
Proof.
  intros Hn. unfold for_int, INT32_MAX.
  rewrite decide_False by lia. by rewrite seqZ_nil.
Qed.

(** ** Arrays *)

Lemma array_incr_spec (a : list Z) (i : Z) :
  0 ≤ i < Z.of_nat (length a) →
  ∃ c, a !! Z.to_nat i = Some c ∧
       array_incr a i = Some (<[Z.to_nat i := incr32 c]> a).
Proof.
  intros Hi. destruct (lookup_lt_is_Some_2 a (Z.to_nat i)) as [c Hc]; [lia|].
  exists c. split; [done|]. unfold array_incr, array_get.
  rewrite decide_True by lia. rewrite Hc. cbn.
  unfold array_set. by rewrite decide_True.
Qed.

(** The cells [first .. first + k - 1] are incremented, the others are
    kept. *)
Lemma incr_cells (off : Z) (k : nat) (start : Z) (a : list Z) :
  0 ≤ off + start → off + start + Z.of_nat k ≤ Z.of_nat (length a) →
  ∃ a', forM (λ i rc, array_incr rc (off + i)) (seqZ start (Z.of_nat k)) a
          = Some a' ∧
        length a' = length a ∧
        ∀ (j : nat) (c : Z), a !! j = Some c →
          a' !! j =
          Some (if decide (off + start ≤ Z.of_nat j
                           < off + start + Z.of_nat k)
                then incr32 c else c).
Proof.
  revert start a. induction k as [|k IH]; intros start a Hlo Hhi.
  - exists a. rewrite seqZ_nil by lia. split; [done|]. split; [done|].
    intros j c Hj. by rewrite decide_False by lia.
  - rewrite seqZ_cons by lia. cbn [forM].
    destruct (array_incr_spec a (off + start)) as (c0 & Hc0 & ->); [lia|].
    replace (Z.pred (Z.of_nat (S k))) with (Z.of_nat k) by lia.
    destruct (IH (Z.succ start) (<[Z.to_nat (off + start) := incr32 c0]> a))
      as (a' & Hrun & Hlen & Hcells).
    { lia. }
    { rewrite length_insert. lia. }
    exists a'. split; [done|]. split.
    { by rewrite Hlen, length_insert. }
    intros j c Hj.
    destruct (decide (j = Z.to_nat (off + start))) as [->|Hne].
    + rewrite (Hcells _ (incr32 c0)).
      * rewrite decide_False by lia. rewrite decide_True by lia.
        congruence.
      * apply list_lookup_insert_eq. by eapply lookup_lt_Some.
    + rewrite (Hcells j c).
      * f_equal. repeat case_decide; try reflexivity; lia.
      * by rewrite list_lookup_insert_ne.
Qed.

(** ** One dependent read *)

Section ReadStep.

Variable PAGE_SIZE : Z.
Variable v : list TraceData.
Variables pageStart pageEnd : Z.

Lemma simulateRead_cells (read : nat) (r : TraceData) (rc : list Z) :
  v !! read = Some r →
  Z.of_nat (length rc) = pageEnd - pageStart + 1 →
  pageEnd - pageStart + 1 ≤ INT32_MAX →
  ∃ rc', simulateRead PAGE_SIZE v pageStart pageEnd read rc = Some rc' ∧
         length rc' = length rc ∧
         ∀ (j : nat) (c : Z), rc !! j = Some c →
           rc' !! j =
           Some (if decide (in_overlap PAGE_SIZE pageStart pageEnd r j)
                 then incr32 c else c).
Proof.
  intros Hr Hlen Hmax. unfold simulateRead. rewrite Hr. cbn.
  set (rs := pageStartOf PAGE_SIZE r). set (re := pageEndOf PAGE_SIZE r).
  destruct (decide (readNum pageStart pageEnd rs re ≤ 0)) as [Hempty|Hsome].
  - rewrite for_int_nothing by done. exists rc.
    split; [done|]. split; [done|]. intros j c Hj.
    rewrite decide_False; [done|].
    unfold in_overlap, readNum in *. fold rs re. lia.
  - unfold for_int. rewrite decide_False.
    2:{ unfold readNum, readStartOverlap, readEndOverlap in *. lia. }
    destruct (incr_cells (readOffset pageStart rs)
                (Z.to_nat (readNum pageStart pageEnd rs re)) 0 rc)
      as (rc' & Hrun & Hlen' & Hcells).
    { unfold readOffset, readStartOverlap. lia. }
    { unfold readNum, readOffset, readStartOverlap, readEndOverlap in *.
      lia. }
    rewrite Z2Nat.id in Hrun by lia.
    exists rc'. split; [done|]. split; [done|].
    intros j c Hj. rewrite (Hcells j c Hj). f_equal.
    unfold in_overlap. fold rs re.
    unfold readNum, readOffset, readStartOverlap, readEndOverlap in *.
    repeat case_decide; try reflexivity; lia.
Qed.



(** C7. A dependent read whose page span misses the span of the write is
    passed over: the simulator returns the counters as they were, raises
    nothing and goes on with the reads that follow. When the spans meet,
    every index [readOffset + i] the loop touches is a cell of the counter
    array, [0 .. pageNum - 1], so that the read is simulated without an
    access out of bounds. *)
Theorem disjoint_read_is_noop (read : nat) (r : TraceData) (rc : list Z)
  (rest : list nat) :
  v !! read = Some r →
  let rs := pageStartOf PAGE_SIZE r in
  let re := pageEndOf PAGE_SIZE r in
  (readEndOverlap pageEnd re < readStartOverlap pageStart rs →
     simulateRead PAGE_SIZE v pageStart pageEnd read rc = Some rc ∧
     forM (simulateRead PAGE_SIZE v pageStart pageEnd) (read :: rest) rc =
     forM (simulateRead PAGE_SIZE v pageStart pageEnd) rest rc) ∧
  (readStartOverlap pageStart rs ≤ readEndOverlap pageEnd re →
     (∀ i, 0 ≤ i < readNum pageStart pageEnd rs re →
        0 ≤ readOffset pageStart rs + i ≤ (pageEnd - pageStart + 1) - 1) ∧
     (Z.of_nat (length rc) = pageEnd - pageStart + 1 →
      pageEnd - pageStart + 1 ≤ INT32_MAX →
      is_Some (simulateRead PAGE_SIZE v pageStart pageEnd read rc))).
Proof.
  intros Hr rs re. split.
  - intros Hmiss.
    assert (simulateRead PAGE_SIZE v pageStart pageEnd read rc = Some rc)
      as Hnoop.
    { unfold simulateRead. rewrite Hr. cbn. fold rs re.
      apply for_int_nothing. unfold readNum. lia. }
    split; [done|]. cbn [forM]. by rewrite Hnoop.
  - intros Hmeet. split.
    + intros i Hi.
      unfold readNum, readOffset, readStartOverlap, readEndOverlap in *.
      lia.
    + intros Hlen Hmax.
      destruct (simulateRead_cells read r rc Hr Hlen Hmax)
        as (rc' & -> & _). by exists rc'.
Qed.

(** ** One write *)

Lemma zero_cells (n : Z) :
  0 ≤ n ≤ INT32_MAX →
  for_int n (λ i rc, array_set rc i 0) (replicate (Z.to_nat n) 0) =
  Some (replicate (Z.to_nat n) 0).
Proof.
  intros Hn. unfold for_int. rewrite decide_False by lia.
  destruct (forM_invariant (λ i rc, array_set rc i 0) (λ i, 0 ≤ i < n)
              (λ rc, rc = replicate (Z.to_nat n) 0) (seqZ 0 n)
              (replicate (Z.to_nat n) 0)) as (rc & -> & ->); [| |done..].
  - intros i rc Hi ->. eexists. split; [|reflexivity].
    unfold array_set. rewrite length_replicate, decide_True by lia.
    f_equal. apply list_eq. intros j.
    destruct (decide (j = Z.to_nat i)) as [->|Hne].
    + rewrite list_lookup_insert_eq by (rewrite length_replicate; lia).
      symmetry. apply lookup_replicate_2. lia.
    + by rewrite list_lookup_insert_ne.
  - apply Forall_seqZ. intros i Hi. lia.
Qed.

Lemma simulatePages_length (reads : gset nat) :
  0 ≤ pageEnd - pageStart + 1 ≤ INT32_MAX →
  (∀ read, read ∈ reads → is_Some (v !! read)) →
  ∃ rc, simulatePages PAGE_SIZE v pageStart pageEnd reads = Some rc ∧
        Z.of_nat (length rc) = pageEnd - pageStart + 1.
Proof.
  intros Hn Hreads. unfold simulatePages, new_int32.
  rewrite decide_False by lia. cbn. rewrite zero_cells by done. cbn.
  apply (forM_invariant _ (λ read, is_Some (v !! read))
           (λ rc, Z.of_nat (length rc) = pageEnd - pageStart + 1)).
  - intros read rc [r Hr] Hlen.
    destruct (simulateRead_cells read r rc Hr Hlen) as (rc' & -> & Hl & _);
      [lia|].
    exists rc'. split; [done|]. by rewrite Hl.
  - apply Forall_forall. intros read Hin. apply Hreads.
    unfold set_in_order in Hin. rewrite merge_sort_Permutation in Hin.
    by rewrite elem_of_elements in Hin.
  - rewrite length_replicate. lia.
Qed.

End ReadStep.


Lemma disjoint_read_is_noop_witness :
  simulateRead 4096 sampleTrace 0 1 4 [2; 3] = Some [2; 3] ∧
  ∀ i, 0 ≤ i < readNum 0 1 1 1 → 0 ≤ readOffset 0 1 + i ≤ (1 - 0 + 1) - 1.
Proof.
  split.
  - apply (disjoint_read_is_noop 4096 sampleTrace 0 1 4
             (mkTraceData 4 true 100000 8) [2; 3] []); [reflexivity|].
    vm_compute. reflexivity.
  - apply (disjoint_read_is_noop 4096 sampleTrace 0 1 3
             (mkTraceData 3 true 4096 100) [2; 2] []); [reflexivity|].
    vm_compute. discriminate.
Defined.

(** ** All the writes of the map *)

Section WriteLoop.

Variable PAGE_SIZE : Z.
Variable v : list TraceData.

Lemma append_cells (rc : list Z) (k : nat) (start : Z) (total : list Z) :
  0 ≤ start → start + Z.of_nat k ≤ Z.of_nat (length rc) →
  ∃ total',
    forM (λ i total, c ← array_get rc i; Some (total ++ [to_uint32 c]))
      (seqZ start (Z.of_nat k)) total = Some total' ∧
    length total' = (length total + k)%nat.
Proof.
  revert start total. induction k as [|k IH]; intros start total Hlo Hhi.
  - exists total. rewrite seqZ_nil by lia. split; [done|]. lia.
  - rewrite seqZ_cons by lia. cbn [forM].
    replace (Z.pred (Z.of_nat (S k))) with (Z.of_nat k) by lia.
    destruct (lookup_lt_is_Some_2 rc (Z.to_nat start)) as [c Hc]; [lia|].
    unfold array_get at 1. rewrite decide_True by lia. rewrite Hc. cbn.
    destruct (IH (Z.succ start) (total ++ [to_uint32 c]))
      as (total' & -> & Hlen); [lia..|].
    exists total'. split; [done|].
    rewrite Hlen, length_app. cbn. lia.
Qed.

Lemma simulateWrite_length (w : nat) (reads : gset nat) (total : list Z) :
  write_ok PAGE_SIZE v w reads →
  ∃ total', simulateWrite PAGE_SIZE v (w, reads) total = Some total' ∧
            Z.of_nat (length total') =
            Z.of_nat (length total) + spanOf PAGE_SIZE v w.
Proof.
  intros [(t & Ht & Hspan) Hreads]. unfold simulateWrite, spanOf.
  cbn [fst snd]. rewrite Ht. cbn. unfold pageNumOf in *.
  destruct (simulatePages_length PAGE_SIZE v (pageStartOf PAGE_SIZE t)
              (pageEndOf PAGE_SIZE t) reads Hspan Hreads)
    as (rc & -> & Hlen).
  cbn. unfold for_int. rewrite decide_False by lia.
  destruct (append_cells rc (length rc) 0 total) as (total' & Hrun & Hl);
    [lia..|].
  rewrite Hlen in Hrun. exists total'. split; [done|]. lia.
Qed.

Lemma forM_simulateWrite_length (l : list (nat * gset nat))
  (total : list Z) :
  Forall (λ p, write_ok PAGE_SIZE v p.1 p.2) l →
  ∃ total', forM (simulateWrite PAGE_SIZE v) l total = Some total' ∧
            Z.of_nat (length total') =
            Z.of_nat (length total)
            + sumZ ((λ p, spanOf PAGE_SIZE v p.1) <$> l).
Proof.
  intros Hl. revert total.
  induction Hl as [|[w reads] l Hw _ IH]; intros total.
  - exists total. split; [done|]. cbn. lia.
  - cbn [forM].
    destruct (simulateWrite_length w reads total Hw) as (t1 & -> & Hl1).
    destruct (IH t1) as (t2 & -> & Hl2).
    exists t2. split; [done|]. rewrite fmap_cons. cbn [sumZ foldr fst].
    fold (sumZ ((λ p, spanOf PAGE_SIZE v p.1) <$> l)). lia.
Qed.

Lemma hotWriteCounts_length (m : Centric) :
  hot_inputs_ok PAGE_SIZE v m →
  ∃ total, hotWriteCounts PAGE_SIZE v m = Some total ∧
           Z.of_nat (length total) = spanTotal PAGE_SIZE v m.
Proof.
  intros Hok. unfold hotWriteCounts, spanTotal.
  destruct (forM_simulateWrite_length (map_in_order Nat.le m) [])
    as (total & Hrun & Hlen).
  - unfold map_in_order. rewrite merge_sort_Permutation.
    apply map_Forall_to_list in Hok.
    eapply Forall_impl; [exact Hok|]. by intros [w reads].
  - exists total. split; [done|]. rewrite Hlen. cbn [length].
    rewrite Z.add_0_l. apply sumZ_perm, fmap_Permutation.
    apply merge_sort_Permutation.
Qed.

End WriteLoop.

(** ** The histogram *)

Lemma occurrences_insert_fresh (h : gmap Z Z) (k n : Z) :
  h !! k = None → occurrences (<[k := n]> h) = n + occurrences h.
Proof.
  intros Hk. unfold occurrences.
  rewrite (sumZ_perm _ ((((k, n) :: map_to_list h)).*2)); [done|].
  apply fmap_Permutation. by apply map_to_list_insert.
Qed.

Lemma occurrences_delete (h : gmap Z Z) (k n : Z) :
  h !! k = Some n → occurrences h = n + occurrences (delete k h).
Proof.
  intros Hk. unfold occurrences.
  rewrite (sumZ_perm _ ((((k, n) :: map_to_list (delete k h))).*2)); [done|].
  apply fmap_Permutation. symmetry. by apply map_to_list_delete.
Qed.

Lemma occurrences_nonneg (h : gmap Z Z) :
  map_Forall (λ _ n, 0 ≤ n) h → 0 ≤ occurrences h.
Proof.
  intros Hh. apply sumZ_nonneg. apply Forall_fmap.
  apply map_Forall_to_list in Hh.
  eapply Forall_impl; [exact Hh|]. by intros [k n].
Qed.

Lemma countStep_occurrences (h : gmap Z Z) (val : Z) :
  map_Forall (λ _ n, 0 ≤ n) h → occurrences h < INT64_MAX →
  occurrences (countStep h val) = occurrences h + 1 ∧
  map_Forall (λ _ n, 0 ≤ n) (countStep h val).
Proof.
  intros Hpos Hmax. unfold countStep. cbv zeta.
  destruct (h !! wrap32 val) as [n|] eqn:Hk;
    cbn [default from_option]; unfold Datatypes.id.
  - pose proof (Hpos _ _ Hk) as Hn. cbn in Hn.
    pose proof (occurrences_delete h _ n Hk) as Hdel.
    assert (0 ≤ occurrences (delete (wrap32 val) h)) as Hrest.
    { apply occurrences_nonneg. by apply map_Forall_delete. }
    rewrite incr64_in_range by lia. split.
    + rewrite <- insert_delete_eq.
      rewrite occurrences_insert_fresh by apply lookup_delete_eq. lia.
    + apply map_Forall_insert_2; [lia | done].
  - rewrite incr64_in_range by (unfold INT64_MAX; lia). split.
    + rewrite occurrences_insert_fresh by done. lia.
    + apply map_Forall_insert_2; [lia | done].
Qed.

Lemma fold_countStep_occurrences (l : list Z) (h : gmap Z Z) :
  map_Forall (λ _ n, 0 ≤ n) h →
  occurrences h + Z.of_nat (length l) ≤ INT64_MAX →
  occurrences (fold_left countStep l h) = occurrences h + Z.of_nat (length l).
Proof.
  revert h. induction l as [|x l IH]; intros h Hpos Hmax; cbn [fold_left].
  - cbn. lia.
  - cbn [length] in *.
    destruct (countStep_occurrences h x Hpos) as [Hocc Hpos']; [lia|].
    rewrite IH; [lia | done | lia].
Qed.

(** A request that starts at a block that is not negative and has a length
    that is not negative, the block after its last one being within 64
    bits, spans at least one page. *)
Lemma pageNumOf_positive (PAGE_SIZE : Z) (t : TraceData) :
  0 < PAGE_SIZE → 0 ≤ sLBA t → 0 ≤ nLB t → sLBA t + nLB t ≤ INT64_MAX →
  1 ≤ pageNumOf PAGE_SIZE t.
Proof.
  intros Hp Hs Hn Hsum. unfold pageNumOf, pageEndOf, pageStartOf.
  rewrite wrap64_in_range by lia.
  rewrite !Z.quot_div_nonneg by lia.
  assert (sLBA t `div` PAGE_SIZE ≤ (sLBA t + nLB t) `div` PAGE_SIZE)
    by (apply Z.div_le_mono; lia).
  lia.
Qed.

(** C5. The tallies of the histogram add up to the sum, over the writes that
    are keys of the write-centric map, of the page-span length
    [pageEnd - pageStart + 1] of the write: each page of each such write is
    counted once. The run is one on which every access of the simulator is
    defined ([hot_inputs_ok]) and the tallies fit their [int64_t]. *)
Theorem histogram_covers_page_spans (PAGE_SIZE : Z) (v : list TraceData)
  (m : Centric) :
  hot_inputs_ok PAGE_SIZE v m →
  spanTotal PAGE_SIZE v m ≤ INT64_MAX →
  ∃ counts totals,
    analyzeHotWrite PAGE_SIZE v m = Some (counts, totals) ∧
    NoDup counts ∧
    length counts = length totals ∧
    sumZ totals = spanTotal PAGE_SIZE v m.
Proof.
  intros Hok Hmax. unfold analyzeHotWrite.
  destruct (hotWriteCounts_length PAGE_SIZE v m Hok) as (total & -> & Hlen).
  cbn. eexists _, _. split; [reflexivity|].
  set (h := fold_left countStep total ∅).
  assert (map_in_order Z.le h ≡ₚ map_to_list h) as Hperm
    by apply merge_sort_Permutation.
  split; [|split].
  - rewrite Hperm. apply NoDup_fst_map_to_list.
  - by rewrite !length_fmap.
  - rewrite (sumZ_perm _ (map_to_list h).*2)
      by (by apply fmap_Permutation).
    fold (occurrences h). subst h.
    rewrite fold_countStep_occurrences.
    + unfold occurrences. rewrite map_to_list_empty. cbn. lia.
    + apply map_Forall_empty.
    + unfold occurrences. rewrite map_to_list_empty. cbn. lia.
Qed.

Lemma sample_hot_inputs_ok : hot_inputs_ok 4096 sampleTrace sampleWriteCentric.
Proof. apply (bool_decide_unpack _). vm_compute. exact I. Defined.

Lemma histogram_covers_page_spans_witness :
  ∃ counts totals,
    analyzeHotWrite 4096 sampleTrace sampleWriteCentric
    = Some (counts, totals) ∧
    NoDup counts ∧
    length counts = length totals ∧
    sumZ totals = spanTotal 4096 sampleTrace sampleWriteCentric.
Proof.
  apply (histogram_covers_page_spans 4096 sampleTrace sampleWriteCentric).
  - exact sample_hot_inputs_ok.
  - vm_compute. discriminate.
Defined.

(** ** No counter exceeds the number of dependent reads *)

Section CounterBound.

Variable PAGE_SIZE : Z.
Variable v : list TraceData.
Variables pageStart pageEnd : Z.

Lemma reads_bound (l : list nat) (rc : list Z) (k : Z) :
  Forall (λ read, is_Some (v !! read)) l →
  Z.of_nat (length rc) = pageEnd - pageStart + 1 →
  pageEnd - pageStart + 1 ≤ INT32_MAX →
  Forall (λ c, 0 ≤ c ≤ k) rc →
  k + Z.of_nat (length l) ≤ INT32_MAX →
  ∃ rc', forM (simulateRead PAGE_SIZE v pageStart pageEnd) l rc = Some rc' ∧
         Forall (λ c, 0 ≤ c ≤ k + Z.of_nat (length l)) rc'.
Proof.
  intros Hl. revert rc k.
  induction Hl as [|read l [r Hr] _ IH]; intros rc k Hlen Hmax Hrc Hk.
  - exists rc. split; [done|]. cbn. by rewrite Z.add_0_r.
  - cbn [forM length] in *.
    destruct (simulateRead_cells PAGE_SIZE v pageStart pageEnd read r rc
                Hr Hlen Hmax) as (rc1 & -> & Hlen1 & Hcells).
    destruct (IH rc1 (k + 1)) as (rc' & -> & Hrc'); [lia | done | | lia |].
    + apply Forall_lookup. intros j x Hx.
      destruct (lookup_lt_is_Some_2 rc j) as [c Hc].
      { rewrite <- Hlen1. by eapply lookup_lt_Some. }
      rewrite (Hcells j c Hc) in Hx. injection Hx as <-.
      rewrite Forall_lookup in Hrc. pose proof (Hrc j c Hc) as Hc'.
      cbn in Hc'. case_decide; [|lia].
      rewrite incr32_in_range by (unfold INT32_MIN; lia). lia.
    + exists rc'. split; [done|].
      eapply Forall_impl; [exact Hrc'|]. cbn. intros c Hc. lia.
Qed.

Lemma simulatePages_bound (reads : gset nat) :
  0 ≤ pageEnd - pageStart + 1 ≤ INT32_MAX →
  set_Forall (λ read, is_Some (v !! read)) reads →
  Z.of_nat (size reads) ≤ INT32_MAX →
  ∃ rc, simulatePages PAGE_SIZE v pageStart pageEnd reads = Some rc ∧
        Forall (λ c, 0 ≤ c ≤ Z.of_nat (size reads)) rc.
Proof.
  intros Hn Hreads Hsize. unfold simulatePages, new_int32.
  rewrite decide_False by lia. cbn. rewrite zero_cells by done. cbn.
  assert (length (set_in_order reads) = size reads) as Hlen.
  { unfold set_in_order. by rewrite merge_sort_Permutation. }
  destruct (reads_bound (set_in_order reads)
              (replicate (Z.to_nat (pageEnd - pageStart + 1)) 0) 0)
    as (rc & -> & Hrc).
  - apply Forall_forall. intros read Hin. apply Hreads.
    unfold set_in_order in Hin. rewrite merge_sort_Permutation in Hin.
    by rewrite elem_of_elements in Hin.
  - rewrite length_replicate. lia.
  - lia.
  - apply Forall_replicate. lia.
  - lia.
  - exists rc. split; [done|]. by rewrite Hlen, Z.add_0_l in Hrc.
Qed.

End CounterBound.

(** ** The worked example *)

(** C3, against the claim. With 4096 blocks to a page, the write of 8192
    blocks from block 0 gets [pageEnd = 8192 / 4096 = 2] and so three
    counters, not two; two reads inside pages 0 and 1 leave them at
    [2; 2; 0], the histogram being 0 once and 2 twice. And whatever two
    reads a write has, none of its counters passes 2. *)
Lemma aligned_write_three_counters :
  pageStartOf 4096 (mkTraceData 0 false 0 8192) = 0 ∧
  pageEndOf 4096 (mkTraceData 0 false 0 8192) = 2 ∧
  simulatePages 4096 alignedTrace 0 2 {[1%nat; 2%nat]} = Some [2; 2; 0] ∧
  analyzeHotWrite 4096 alignedTrace alignedWriteCentric
  = Some ([0; 2], [1; 2]) ∧
  (∀ (v : list TraceData) (pageStart pageEnd : Z) (reads : gset nat),
     0 ≤ pageEnd - pageStart + 1 ≤ INT32_MAX →
     set_Forall (λ read, is_Some (v !! read)) reads →
     size reads = 2%nat →
     ∃ rc, simulatePages 4096 v pageStart pageEnd reads = Some rc ∧
           Forall (λ c, c ≠ 3) rc).
Proof.
  split; [reflexivity|]. split; [reflexivity|].
  split; [vm_compute; reflexivity|]. split; [vm_compute; reflexivity|].
  intros v pageStart pageEnd reads Hn Hreads Hsize.
  destruct (simulatePages_bound 4096 v pageStart pageEnd reads Hn Hreads)
    as (rc & Hrun & Hrc).
  { rewrite Hsize. vm_compute. discriminate. }
  exists rc. split; [done|].
  eapply Forall_impl; [exact Hrc|]. cbn. intros c Hc. rewrite Hsize in Hc. lia.
Qed.

(** C3, amended. With 4096 blocks to a page, the write of 8191 blocks from
    block 0 spans pages 0 and 1 and has exactly two counters. With three
    dependent reads, two of them over pages 0 and 1 (and beyond) and the
    third inside page 1, the counters end at [2; 3], and the write puts one
    occurrence of 2 and one occurrence of 3 into the histogram. *)
Theorem two_page_write_example :
  pageStartOf 4096 (mkTraceData 0 false 0 8191) = 0 ∧
  pageEndOf 4096 (mkTraceData 0 false 0 8191) = 1 ∧
  simulatePages 4096 sampleTrace 0 1 {[1%nat; 2%nat; 3%nat]} = Some [2; 3] ∧
  analyzeHotWrite 4096 sampleTrace firstWriteOnly = Some ([2; 3], [1; 1]).
Proof.
  split; [reflexivity|]. split; [reflexivity|].
  split; vm_compute; reflexivity.
Qed.

(** ** The driver *)

Section Driver.

Variable PAGE_SIZE : Z.

Lemma analyze_eq (inp : Inputs) (pageNum : Z) :
  analyze PAGE_SIZE inp pageNum =
  hot ← analyzeHotWrite PAGE_SIZE (vTraceData inp) (mWriteCentric inp);
  Some (inp,
        mkReport
          (analyzeDependTypes (vTraceData inp) (mReadCentric inp) true
             zeroCounters).2
          (analyzeDependTypes (vTraceData inp) (mWriteCentric inp) false
             zeroCounters).2
          hot).
Proof.
  unfold analyze.
  pose proof (analyzeDependTypes_frame (vTraceData inp) (mReadCentric inp)
                true zeroCounters) as Hr.
  pose proof (analyzeDependTypes_frame (vTraceData inp) (mWriteCentric inp)
                false zeroCounters) as Hw.
  destruct (analyzeDependTypes (vTraceData inp) (mReadCentric inp) true
              zeroCounters) as [[v1 mR] reads].
  destruct (analyzeDependTypes (vTraceData inp) (mWriteCentric inp) false
              zeroCounters) as [[v2 mW] writes] eqn:Hrun.
  cbn [fst] in Hr, Hw. injection Hr as -> ->. injection Hw as -> ->.
  rewrite Hrun.
  cbn [snd]. by destruct inp.
Qed.

(** C9. A run of the whole analysis leaves the trace and the two maps as
    it found them, so that a second run on what the first one left prints
    the same read breakdown, write breakdown and histogram; no state
    passes from a run to the next, and the argument [pageNum], which the
    driver does not use, has no part in the result. *)
Theorem analyze_idempotent (inp inp' : Inputs) (pageNum : Z)
  (rep : Report) :
  analyze PAGE_SIZE inp pageNum = Some (inp', rep) →
  inp' = inp ∧
  ∀ pageNum', analyze PAGE_SIZE inp' pageNum' = Some (inp', rep).
Proof.
  rewrite analyze_eq. intros Hrun.
  destruct (analyzeHotWrite PAGE_SIZE (vTraceData inp) (mWriteCentric inp))
    as [hot|] eqn:Hhot; [|discriminate].
  cbn in Hrun. injection Hrun as <- <-.
  split; [reflexivity|]. intros pageNum'.
  rewrite analyze_eq, Hhot. reflexivity.
Qed.

End Driver.

Lemma analyze_idempotent_witness :
  analyze 4096 sampleInputs 7 =
  Some (sampleInputs,
        mkReport (mkCounters 1 2 1) (mkCounters 0 1 1)
          ([1; 2; 3], [1; 1; 1])).
Proof.
  apply (analyze_idempotent 4096 sampleInputs sampleInputs 0
           (mkReport (mkCounters 1 2 1) (mkCounters 0 1 1)
              ([1; 2; 3], [1; 1; 1]))).
  vm_compute. reflexivity.
Defined.

(** * Further properties *)

(** ** The counters of one write, exactly *)

Section CounterCount.

Variable PAGE_SIZE : Z.
Variable v : list TraceData.
Variables pageStart pageEnd : Z.

Lemma reads_count (l : list nat) (rc : list Z) (k : Z) :
  Forall (λ read, is_Some (v !! read)) l →
  Z.of_nat (length rc) = pageEnd - pageStart + 1 →
  pageEnd - pageStart + 1 ≤ INT32_MAX →
  Forall (λ c, 0 ≤ c ≤ k) rc →
  k + Z.of_nat (length l) ≤ INT32_MAX →
  ∃ rc', forM (simulateRead PAGE_SIZE v pageStart pageEnd) l rc = Some rc' ∧
         length rc' = length rc ∧
         ∀ (j : nat) (c : Z), rc !! j = Some c →
           rc' !! j =
           Some (c + Z.of_nat (length
                   (filter (covers PAGE_SIZE v pageStart pageEnd j) l))).
Proof.
  intros Hl. revert rc k.
  induction Hl as [|read l [r Hr] _ IH]; intros rc k Hlen Hmax Hrc Hk.
  - exists rc. split; [done|]. split; [done|]. intros j c Hj.
    cbn. by rewrite Z.add_0_r.
  - cbn [forM length] in *.
    destruct (simulateRead_cells PAGE_SIZE v pageStart pageEnd read r rc
                Hr Hlen Hmax) as (rc1 & -> & Hlen1 & Hcells).
    destruct (IH rc1 (k + 1)) as (rc' & -> & Hlen' & Hcount);
      [lia | done | | lia |].
    + apply Forall_lookup. intros j x Hx.
      destruct (lookup_lt_is_Some_2 rc j) as [c Hc].
      { rewrite <- Hlen1. by eapply lookup_lt_Some. }
      rewrite (Hcells j c Hc) in Hx. injection Hx as <-.
      rewrite Forall_lookup in Hrc. pose proof (Hrc j c Hc) as Hc'.
      cbn in Hc'. case_decide; [|lia].
      rewrite incr32_in_range by (unfold INT32_MIN; lia). lia.
    + exists rc'. split; [done|]. split; [congruence|].
      intros j c Hc. rewrite (Hcount j _ (Hcells j c Hc)). f_equal.
      rewrite Forall_lookup in Hrc. pose proof (Hrc j c Hc) as Hc'.
      cbn in Hc'. rewrite filter_cons.
      assert (covers PAGE_SIZE v pageStart pageEnd j read
              ↔ in_overlap PAGE_SIZE pageStart pageEnd r j) as Hcov.
      { unfold covers. by rewrite Hr. }
      repeat case_decide; cbn [length]; try tauto.
      rewrite incr32_in_range by (unfold INT32_MIN; lia). lia.
Qed.

Lemma filter_set_in_order (P : nat → Prop) `{!∀ x, Decision (P x)}
  (reads : gset nat) :
  length (filter P (set_in_order reads)) = size (filter P reads).
Proof.
  unfold set_in_order. rewrite merge_sort_Permutation.
  unfold size, set_size. cbn. apply Permutation_length.
  apply NoDup_Permutation.
  - apply NoDup_filter, NoDup_elements.
  - apply NoDup_elements.
  - intros x. rewrite list_elem_of_filter, !elem_of_elements, elem_of_filter.
    done.
Qed.

Lemma simulatePages_count (reads : gset nat) :
  0 ≤ pageEnd - pageStart + 1 ≤ INT32_MAX →
  set_Forall (λ read, is_Some (v !! read)) reads →
  Z.of_nat (size reads) ≤ INT32_MAX →
  ∃ rc, simulatePages PAGE_SIZE v pageStart pageEnd reads = Some rc ∧
        Z.of_nat (length rc) = pageEnd - pageStart + 1 ∧
        ∀ j : nat, (j < length rc)%nat →
          rc !! j =
          Some (Z.of_nat (length
                  (filter (covers PAGE_SIZE v pageStart pageEnd j)
                     (set_in_order reads)))).
Proof.
  intros Hn Hreads Hsize. unfold simulatePages, new_int32.
  rewrite decide_False by lia. cbn. rewrite zero_cells by done. cbn.
  assert (length (set_in_order reads) = size reads) as Hlen.
  { unfold set_in_order. by rewrite merge_sort_Permutation. }
  destruct (reads_count (set_in_order reads)
              (replicate (Z.to_nat (pageEnd - pageStart + 1)) 0) 0)
    as (rc & -> & Hlen' & Hrc).
  - apply Forall_forall. intros read Hin. apply Hreads.
    unfold set_in_order in Hin. rewrite merge_sort_Permutation in Hin.
    by rewrite elem_of_elements in Hin.
  - rewrite length_replicate. lia.
  - lia.
  - apply Forall_replicate. lia.
  - lia.
  - exists rc. split; [done|]. rewrite Hlen', length_replicate.
    split; [lia|]. intros j Hj.
    rewrite (Hrc j 0) by (apply lookup_replicate_2; lia).
    by rewrite Z.add_0_l.
Qed.

(** X1. Once the dependent reads of a write are simulated, the counter of
    each page of the write holds the number of reads of the set whose page
    span contains that page. The run is one on which the accesses are
    defined and the set is no larger than an [int32_t] counts. *)
Theorem counter_is_number_of_covering_reads (reads : gset nat) :
  0 ≤ pageEnd - pageStart + 1 ≤ INT32_MAX →
  set_Forall (λ read, is_Some (v !! read)) reads →
  Z.of_nat (size reads) ≤ INT32_MAX →
  ∃ rc, simulatePages PAGE_SIZE v pageStart pageEnd reads = Some rc ∧
        Z.of_nat (length rc) = pageEnd - pageStart + 1 ∧
        ∀ j : nat, (j < length rc)%nat →
          rc !! j =
          Some (Z.of_nat (size
                  (filter (covers PAGE_SIZE v pageStart pageEnd j) reads))).
Proof.
  intros Hn Hreads Hsize.
  destruct (simulatePages_count reads Hn Hreads Hsize)
    as (rc & Hrun & Hlen & Hrc).
  exists rc. split; [done|]. split; [done|]. intros j Hj.
  by rewrite (Hrc j Hj), filter_set_in_order.
Qed.

(** X2. When every dependent read spans the whole of the write, from its
    first page or before to its last page or beyond, every counter of the
    write ends at the number of dependent reads; with one such read the
    counters are all 1. *)
Theorem full_cover_counts_every_read (reads : gset nat) :
  0 ≤ pageEnd - pageStart + 1 ≤ INT32_MAX →
  Z.of_nat (size reads) ≤ INT32_MAX →
  set_Forall (λ read, ∃ r, v !! read = Some r ∧
                pageStartOf PAGE_SIZE r ≤ pageStart ∧
                pageEnd ≤ pageEndOf PAGE_SIZE r) reads →
  simulatePages PAGE_SIZE v pageStart pageEnd reads =
  Some (replicate (Z.to_nat (pageEnd - pageStart + 1))
          (Z.of_nat (size reads))).
Proof.
  intros Hn Hsize Hfull.
  destruct (simulatePages_count reads Hn) as (rc & -> & Hlen & Hrc);
    [|done|].
  { intros read Hin. destruct (Hfull read Hin) as (r & -> & _). by eexists. }
  f_equal. apply list_eq. intros j.
  destruct (decide (j < length rc)%nat) as [Hj|Hj].
  - rewrite (Hrc j Hj), filter_set_in_order. symmetry.
    rewrite lookup_replicate_2 by lia. do 3 f_equal.
    apply set_eq. intros read. rewrite elem_of_filter.
    split; [|by intros []]. intros Hin. split; [|done].
    destruct (Hfull read Hin) as (r & Hr & Hlo & Hhi).
    unfold covers. rewrite Hr.
    unfold in_overlap, readStartOverlap, readEndOverlap. lia.
  - rewrite lookup_ge_None_2 by lia. symmetry.
    apply lookup_replicate_None. lia.
Qed.

(** X16. No counter of a write is negative and none exceeds the number of
    dependent reads of the write. *)
Theorem counter_within_number_of_reads (reads : gset nat) :
  0 ≤ pageEnd - pageStart + 1 ≤ INT32_MAX →
  set_Forall (λ read, is_Some (v !! read)) reads →
  Z.of_nat (size reads) ≤ INT32_MAX →
  ∃ rc, simulatePages PAGE_SIZE v pageStart pageEnd reads = Some rc ∧
        Z.of_nat (length rc) = pageEnd - pageStart + 1 ∧
        Forall (λ c, 0 ≤ c ≤ Z.of_nat (size reads)) rc.
Proof.
  intros Hn Hreads Hsize.
  destruct (simulatePages_bound PAGE_SIZE v pageStart pageEnd reads Hn
              Hreads Hsize) as (rc & Hrun & Hrc).
  destruct (simulatePages_length PAGE_SIZE v pageStart pageEnd reads Hn
              Hreads) as (rc' & Hrun' & Hlen).
  exists rc. split; [done|]. split; [|done].
  rewrite Hrun in Hrun'. by injection Hrun' as <-.
Qed.

End CounterCount.

(** ** The flat sequence of counts, exactly *)

Section FlatSequence.

Variable PAGE_SIZE : Z.
Variable v : list TraceData.

Lemma append_cells_exact (rc : list Z) (k : nat) (start : nat)
  (total : list Z) :
  (start + k ≤ length rc)%nat →
  forM (λ i total, c ← array_get rc i; Some (total ++ [to_uint32 c]))
    (seqZ (Z.of_nat start) (Z.of_nat k)) total =
  Some (total ++ (to_uint32 <$> take k (drop start rc))).
Proof.
  revert start total. induction k as [|k IH]; intros start total Hhi.
  - rewrite seqZ_nil by lia. cbn. by rewrite app_nil_r.
  - rewrite seqZ_cons by lia. cbn [forM].
    replace (Z.pred (Z.of_nat (S k))) with (Z.of_nat k) by lia.
    replace (Z.succ (Z.of_nat start)) with (Z.of_nat (S start)) by lia.
    destruct (lookup_lt_is_Some_2 rc start) as [c Hc]; [lia|].
    unfold array_get at 1. rewrite decide_True by lia.
    rewrite Nat2Z.id, Hc. cbn. rewrite IH by lia.
    rewrite (drop_S rc c start Hc). cbn. by rewrite <- app_assoc.
Qed.

Lemma simulateWrite_exact (w : nat) (reads : gset nat) (t : TraceData)
  (rc total : list Z) :
  v !! w = Some t →
  simulatePages PAGE_SIZE v (pageStartOf PAGE_SIZE t) (pageEndOf PAGE_SIZE t)
    reads = Some rc →
  Z.of_nat (length rc) = pageNumOf PAGE_SIZE t →
  pageNumOf PAGE_SIZE t ≤ INT32_MAX →
  simulateWrite PAGE_SIZE v (w, reads) total =
  Some (total ++ (to_uint32 <$> rc)).
Proof.
  intros Ht Hrc Hlen Hmax. unfold simulateWrite. cbn [fst snd].
  rewrite Ht. cbn. rewrite Hrc. cbn. unfold pageNumOf in *.
  unfold for_int. rewrite decide_False by lia. rewrite <- Hlen.
  change (seqZ 0) with (seqZ (Z.of_nat 0)).
  rewrite (append_cells_exact rc (length rc) 0 total) by lia.
  by rewrite drop_0, firstn_all.
Qed.

Lemma forM_simulateWrite_exact (l : list (nat * gset nat))
  (total : list Z) :
  Forall (λ p, write_ok PAGE_SIZE v p.1 p.2) l →
  ∃ rcs, Forall2 (counters_of PAGE_SIZE v) l rcs ∧
         forM (simulateWrite PAGE_SIZE v) l total =
         Some (total ++ (to_uint32 <$> concat rcs)).
Proof.
  intros Hl. revert total.
  induction Hl as [|[w reads] l Hw _ IH]; intros total.
  - exists []. split; [constructor|]. cbn. by rewrite app_nil_r.
  - destruct Hw as [(t & Ht & Hspan) Hreads]. cbn [fst snd] in *.
    unfold pageNumOf in Hspan.
    destruct (simulatePages_length PAGE_SIZE v (pageStartOf PAGE_SIZE t)
                (pageEndOf PAGE_SIZE t) reads Hspan Hreads)
      as (rc & Hrc & Hlen).
    destruct (IH (total ++ (to_uint32 <$> rc))) as (rcs & Hall & Hrun).
    exists (rc :: rcs). split.
    + constructor; [|done]. by exists t.
    + cbn [forM].
      rewrite (simulateWrite_exact w reads t rc total Ht Hrc)
        by (unfold pageNumOf; lia).
      rewrite Hrun. cbn [concat]. by rewrite fmap_app, app_assoc.
Qed.

(** X3. The flat sequence [readCountsTotal] is the concatenation, in the
    ascending order of the write ids of the map, of the counter arrays of
    the writes, each counter stored as a [uint32_t]: no page of a keyed
    write is left out, none is entered twice, and nothing else is
    entered. *)
Theorem flat_sequence_is_concatenation (m : Centric) :
  hot_inputs_ok PAGE_SIZE v m →
  ∃ rcs, Forall2 (counters_of PAGE_SIZE v) (map_in_order Nat.le m) rcs ∧
         hotWriteCounts PAGE_SIZE v m = Some (to_uint32 <$> concat rcs).
Proof.
  intros Hok. unfold hotWriteCounts.
  destruct (forM_simulateWrite_exact (map_in_order Nat.le m) [])
    as (rcs & Hall & Hrun).
  - unfold map_in_order. rewrite merge_sort_Permutation.
    apply map_Forall_to_list in Hok.
    eapply Forall_impl; [exact Hok|]. by intros [w reads].
  - exists rcs. split; [done|]. by rewrite Hrun.
Qed.

End FlatSequence.

(** ** The histogram, exactly *)

Lemma countOf_nil (k : Z) : countOf k [] = 0.
Proof. reflexivity. Qed.

Lemma countOf_snoc (k : Z) (l : list Z) (x : Z) :
  countOf k (l ++ [x]) =
  countOf k l + (if decide (wrap32 x = k) then 1 else 0).
Proof.
  unfold countOf. rewrite filter_app, length_app.
  rewrite filter_cons, filter_nil. case_decide; cbn [length]; lia.
Qed.

Lemma countOf_le_length (k : Z) (l : list Z) :
  0 ≤ countOf k l ≤ Z.of_nat (length l).
Proof.
  unfold countOf. pose proof (length_filter (λ x, wrap32 x = k) l). lia.
Qed.

Lemma fold_countStep_lookup (l : list Z) (k : Z) :
  Z.of_nat (length l) ≤ INT64_MAX →
  fold_left countStep l ∅ !! k =
  if decide (countOf k l = 0) then None else Some (countOf k l).
Proof.
  induction l as [|x l IH] using rev_ind; intros Hlen.
  - cbn. by rewrite lookup_empty.
  - rewrite length_app in Hlen. cbn [length] in Hlen.
    rewrite fold_left_app. cbn [fold_left]. rewrite countOf_snoc.
    set (h := fold_left countStep l ∅) in *.
    pose proof (countOf_le_length (wrap32 x) l) as Hx.
    pose proof (countOf_le_length k l) as Hk.
    unfold countStep. cbv zeta.
    destruct (decide (wrap32 x = k)) as [<-|Hne].
    + rewrite lookup_insert_eq, IH by lia.
      destruct (decide (countOf (wrap32 x) l = 0)) as [Hz|Hz];
        cbn [default from_option]; unfold Datatypes.id.
      * rewrite Hz, decide_False by lia.
        rewrite incr64_in_range by (unfold INT64_MAX; lia). done.
      * rewrite decide_False by lia. by rewrite incr64_in_range by lia.
    + rewrite lookup_insert_ne by done. rewrite IH by lia.
      by rewrite Z.add_0_r.
Qed.

Global Instance key_le_total {V : Type} : Total (@key_le Z V Z.le).
Proof. intros a b. unfold key_le. lia. Qed.

Global Instance key_le_trans {V : Type} : Transitive (@key_le Z V Z.le).
Proof. intros a b c. unfold key_le. lia. Qed.

Lemma StronglySorted_lookup {A : Type} (R : relation A) (l : list A)
  (i j : nat) (a b : A) :
  StronglySorted R l → (i < j)%nat → l !! i = Some a → l !! j = Some b →
  R a b.
Proof.
  intros Hl. revert i j.
  induction Hl as [|x l _ IH Hx]; intros i j Hij Ha Hb; [done|].
  destruct j as [|j]; [lia|]. cbn in Hb. destruct i as [|i].
  - cbn in Ha. injection Ha as <-.
    rewrite Forall_forall in Hx. apply Hx. by eapply list_elem_of_lookup_2.
  - cbn in Ha. apply (IH i j); [lia | done..].
Qed.

(** X4. The two rows printed under [[HotWrite]] are the histogram of the
    flat sequence: a count is paired with a tally exactly when the tally is
    the number of elements of the sequence with that count and is not zero.
    The counts are printed in strictly ascending order. The sequence is no
    longer than an [int64_t] tally can count. *)
Theorem rows_are_histogram (PAGE_SIZE : Z) (v : list TraceData)
  (m : Centric) (flat : list Z) :
  hotWriteCounts PAGE_SIZE v m = Some flat →
  Z.of_nat (length flat) ≤ INT64_MAX →
  ∃ counts totals,
    analyzeHotWrite PAGE_SIZE v m = Some (counts, totals) ∧
    length counts = length totals ∧
    (∀ k n, (k, n) ∈ zip counts totals ↔ n = countOf k flat ∧ 0 < n) ∧
    (∀ (i j : nat) (a b : Z), (i < j)%nat →
       counts !! i = Some a → counts !! j = Some b → a < b).
Proof.
  intros Hflat Hlen. unfold analyzeHotWrite. rewrite Hflat. cbn.
  eexists _, _. split; [reflexivity|].
  set (h := fold_left countStep flat ∅).
  assert (map_in_order Z.le h ≡ₚ map_to_list h) as Hperm
    by apply merge_sort_Permutation.
  split; [by rewrite !length_fmap|]. split.
  - intros k n. rewrite zip_fst_snd, Hperm, elem_of_map_to_list.
    subst h. rewrite fold_countStep_lookup by done.
    pose proof (countOf_le_length k flat).
    case_decide; split; try done; try lia.
    + intros [= <-]. lia.
    + intros [-> _]. done.
  - intros i j a b Hij Ha Hb.
    rewrite list_lookup_fmap in Ha, Hb.
    destruct (map_in_order Z.le h !! i) as [[a' na]|] eqn:Hi; [|done].
    destruct (map_in_order Z.le h !! j) as [[b' nb]|] eqn:Hj; [|done].
    cbn in Ha, Hb. injection Ha as ->. injection Hb as ->.
    assert (a ≤ b) as Hle.
    { apply (StronglySorted_lookup (key_le Z.le) (map_in_order Z.le h)
                 i j (a, na) (b, nb)); [|done..].
      apply StronglySorted_merge_sort; apply _. }
    assert (a ≠ b) as Hne.
    { intros ->.
      assert (NoDup (map_in_order Z.le h).*1) as Hnd.
      { rewrite Hperm. apply NoDup_fst_map_to_list. }
      assert (i = j); [|lia].
      apply (NoDup_lookup _ i j b Hnd); rewrite list_lookup_fmap.
      - by rewrite Hi.
      - by rewrite Hj. }
    lia.
Qed.

(** ** When the simulator is defined *)

Lemma forM_Some_inv {A S : Type} (body : A → S → option S) (l : list A)
  (s s' : S) :
  forM body l s = Some s' →
  Forall (λ x, ∃ s1 s2, body x s1 = Some s2) l.
Proof.
  revert s. induction l as [|x l IH]; intros s Hrun; [constructor|].
  cbn in Hrun. destruct (body x s) as [s1|] eqn:Hx; [|discriminate].
  constructor; [by exists s, s1 | by apply (IH s1)].
Qed.

Lemma for_int_Some_inv {S : Type} (n : Z) (body : Z → S → option S)
  (s s' : S) :
  for_int n body s = Some s' → n ≤ INT32_MAX.
Proof.
  unfold for_int. case_decide; [discriminate|]. intros _. lia.
Qed.

Section Definedness.

Variable PAGE_SIZE : Z.
Variable v : list TraceData.

Lemma simulateRead_Some_inv (pageStart pageEnd : Z) (read : nat)
  (rc rc' : list Z) :
  simulateRead PAGE_SIZE v pageStart pageEnd read rc = Some rc' →
  is_Some (v !! read).
Proof.
  unfold simulateRead. destruct (v !! read) as [r|]; [by eexists|].
  discriminate.
Qed.

Lemma simulatePages_Some_inv (pageStart pageEnd : Z) (reads : gset nat)
  (rc : list Z) :
  simulatePages PAGE_SIZE v pageStart pageEnd reads = Some rc →
  0 ≤ pageEnd - pageStart + 1 ≤ INT32_MAX ∧
  set_Forall (λ read, is_Some (v !! read)) reads.
Proof.
  unfold simulatePages, new_int32.
  case_decide as Hneg; [discriminate|]. cbn.
  destruct (for_int _ _ (replicate _ 0)) as [rc0|] eqn:Hzero;
    [|discriminate].
  cbn. intros Hreads. apply for_int_Some_inv in Hzero.
  split; [lia|]. intros read Hin.
  apply forM_Some_inv in Hreads. rewrite Forall_forall in Hreads.
  destruct (Hreads read) as (s1 & s2 & Hrun).
  - unfold set_in_order. rewrite merge_sort_Permutation.
    by apply elem_of_elements.
  - by eapply simulateRead_Some_inv.
Qed.

Lemma simulateWrite_Some_inv (w : nat) (reads : gset nat)
  (total total' : list Z) :
  simulateWrite PAGE_SIZE v (w, reads) total = Some total' →
  write_ok PAGE_SIZE v w reads.
Proof.
  unfold simulateWrite. cbn [fst snd].
  destruct (v !! w) as [t|] eqn:Ht; [|discriminate]. cbn.
  destruct (simulatePages _ _ _ _ reads) as [rc|] eqn:Hrc; [|discriminate].
  intros _. apply simulatePages_Some_inv in Hrc as [Hspan Hreads].
  split; [|done]. exists t. by split.
Qed.

Lemma hotWriteCounts_is_Some (m : Centric) :
  is_Some (hotWriteCounts PAGE_SIZE v m) ↔ hot_inputs_ok PAGE_SIZE v m.
Proof.
  split.
  - intros [flat Hflat].
    unfold hotWriteCounts in Hflat. apply forM_Some_inv in Hflat.
    unfold map_in_order in Hflat. rewrite merge_sort_Permutation in Hflat.
    apply map_Forall_to_list.
    eapply Forall_impl; [exact Hflat|].
    intros [w reads] (s1 & s2 & Hrun). cbn.
    by eapply simulateWrite_Some_inv.
  - intros Hok.
    destruct (hotWriteCounts_length PAGE_SIZE v m Hok) as (flat & -> & _).
    by eexists.
Qed.

(** X5. The simulator reads the trace and its counter arrays within their
    bounds, allocates arrays of a length that is not negative and keeps its
    [int] loop counters in range exactly when every key of the write-centric
    map and every id of its sets is a position of the trace and every keyed
    write spans between 0 and [INT32_MAX] pages: under this condition it
    returns its two rows, and without it it meets an access or a length that
    C++ leaves undefined. *)
Theorem hot_write_defined_iff (m : Centric) :
  is_Some (analyzeHotWrite PAGE_SIZE v m) ↔ hot_inputs_ok PAGE_SIZE v m.
Proof.
  rewrite <- hotWriteCounts_is_Some. unfold analyzeHotWrite.
  destruct (hotWriteCounts PAGE_SIZE v m) as [flat|]; cbn.
  - split; intros _; by eexists.
  - split; intros [x Hx]; discriminate.
Qed.

End Definedness.

(** ** More on the classifier *)

Lemma classify_fold_split (isRead_ : bool) (v : list TraceData)
  (m : Centric) (c : Counters) :
  fold_left (classifyStep isRead_) v (m, c) =
  (m, fold_left (λ c t, (classifyStep isRead_ (m, c) t).2) v c).
Proof.
  revert c. induction v as [|t v IH]; intros c; [reflexivity|].
  cbn [fold_left]. rewrite classifyStep_eq at 1. rewrite IH.
  by rewrite classifyStep_eq.
Qed.

Lemma classifyStep_comm (isRead_ : bool) (m : Centric) (c : Counters)
  (a b : TraceData) :
  (classifyStep isRead_ (m, (classifyStep isRead_ (m, c) a).2) b).2 =
  (classifyStep isRead_ (m, (classifyStep isRead_ (m, c) b).2) a).2.
Proof.
  rewrite !classifyStep_eq. cbn [snd].
  destruct (decide (isRead a = isRead_)), (decide (isRead b = isRead_));
    try reflexivity.
  destruct (dependType m a), (dependType m b); reflexivity.
Qed.

Lemma fold_left_comm_perm {A B : Type} (f : B → A → B) (l l' : list A) :
  (∀ c a b, f (f c a) b = f (f c b) a) →
  l ≡ₚ l' → ∀ c, fold_left f l c = fold_left f l' c.
Proof.
  intros Hcomm. induction 1 as [|x l l' _ IH|x y l|l l' l'' _ IH1 _ IH2];
    intros c; cbn [fold_left].
  - reflexivity.
  - apply IH.
  - by rewrite Hcomm.
  - by rewrite IH1.
Qed.

(** X6. The breakdown does not depend on the order of the trace: two traces
    with the same requests, in any order, leave the three counters at the
    same values. *)
Theorem breakdown_order_independent (v v' : list TraceData) (m : Centric)
  (isRead_ : bool) (c : Counters) :
  v ≡ₚ v' →
  (analyzeDependTypes v m isRead_ c).2 =
  (analyzeDependTypes v' m isRead_ c).2.
Proof.
  intros Hperm. unfold analyzeDependTypes.
  rewrite !classify_fold_split. cbn [snd].
  apply fold_left_comm_perm; [|done].
  intros c0 a b. apply classifyStep_comm.
Qed.

Lemma breakdown_order_independent_witness :
  (analyzeDependTypes sampleTrace sampleReadCentric true zeroCounters).2 =
  (analyzeDependTypes (reverse sampleTrace) sampleReadCentric true
     zeroCounters).2.
Proof.
  apply (breakdown_order_independent sampleTrace (reverse sampleTrace)
           sampleReadCentric true zeroCounters).
  symmetry. apply reverse_Permutation.
Defined.

(** X7. Classifying a trace in two pieces, the second started from the
    counters the first one left, gives what classifying the whole trace
    gives. *)
Theorem breakdown_of_concatenation (v1 v2 : list TraceData) (m : Centric)
  (isRead_ : bool) (c : Counters) :
  analyzeDependTypes (v1 ++ v2) m isRead_ c =
  (v1 ++ v2, m,
   (analyzeDependTypes v2 m isRead_ (analyzeDependTypes v1 m isRead_ c).2).2).
Proof.
  unfold analyzeDependTypes. rewrite fold_left_app.
  rewrite (classify_fold_split isRead_ v1). cbn [snd].
  rewrite !classify_fold_split. reflexivity.
Qed.

(** X8. The classifier reads the map only at the ids of the requests of the
    direction asked for, and there only whether the id is a key and whether
    its set has more than one element: two maps that agree on this leave the
    counters at the same values, whatever ids their sets hold. *)
Theorem breakdown_reads_presence_and_size (v : list TraceData)
  (m m' : Centric) (isRead_ : bool) (c : Counters) :
  (∀ t, t ∈ v → isRead t = isRead_ →
     (λ s : gset nat, bool_decide (1 < size s)%nat) <$> m !! id t =
     (λ s : gset nat, bool_decide (1 < size s)%nat) <$> m' !! id t) →
  (analyzeDependTypes v m isRead_ c).2 =
  (analyzeDependTypes v m' isRead_ c).2.
Proof.
  unfold analyzeDependTypes. rewrite !classify_fold_split. cbn [snd].
  revert c. induction v as [|t v IH]; intros c Hagree; [reflexivity|].
  cbn [fold_left].
  assert ((classifyStep isRead_ (m, c) t).2 =
          (classifyStep isRead_ (m', c) t).2) as ->.
  { rewrite !classifyStep_eq. cbn [snd].
    destruct (decide (isRead t = isRead_)) as [Hd|]; [|reflexivity].
    pose proof (Hagree t (list_elem_of_here _ _) Hd) as Ht.
    unfold dependType.
    destruct (m !! id t) as [s|], (m' !! id t) as [s'|]; cbn in Ht;
      try discriminate; [|reflexivity].
    injection Ht as Ht.
    destruct (decide (1 < size s)%nat), (decide (1 < size s')%nat);
      try reflexivity.
    - rewrite bool_decide_eq_true_2, bool_decide_eq_false_2 in Ht by done.
      discriminate.
    - rewrite bool_decide_eq_false_2, bool_decide_eq_true_2 in Ht by done.
      discriminate. }
  apply IH. intros t' Hin. apply Hagree. by apply list_elem_of_further.
Qed.

Lemma breakdown_reads_presence_and_size_witness :
  (analyzeDependTypes sampleTrace sampleReadCentric true zeroCounters).2 =
  (analyzeDependTypes sampleTrace
     {[ 1%nat := {[7%nat]}; 2%nat := {[8%nat]};
        3%nat := {[7%nat; 8%nat; 9%nat]}; 0%nat := ∅ ]}
     true zeroCounters).2.
Proof.
  apply (breakdown_reads_presence_and_size sampleTrace sampleReadCentric
           {[ 1%nat := {[7%nat]}; 2%nat := {[8%nat]};
              3%nat := {[7%nat; 8%nat; 9%nat]}; 0%nat := ∅ ]}
           true zeroCounters).
  intros t Hin Hd. unfold sampleTrace in Hin.
  repeat (apply elem_of_cons in Hin as [->|Hin];
          [first [by cbn in Hd | vm_compute; reflexivity]|]).
  by apply elem_of_nil in Hin.
Defined.

(** ** More on the driver *)

Lemma requestsOf_both (v : list TraceData) :
  requestsOf true v + requestsOf false v = Z.of_nat (length v).
Proof.
  induction v as [|t v IH]; [reflexivity|].
  rewrite !requestsOf_cons. cbn [length].
  destruct (isRead t); repeat case_decide; try done; lia.
Qed.

(** X9. In the report of [analyze] every request of the trace is counted
    once: the three read counts and the three write counts add up to the
    length of the trace, the reads to the number of reads and the writes to
    the number of writes; and the histogram is the one [analyzeHotWrite]
    gives on the map as the caller passed it. The trace is no longer than an
    [int32_t] counts. *)
Theorem report_counts_every_request (PAGE_SIZE : Z) (inp inp' : Inputs)
  (pageNum : Z) (rep : Report) :
  analyze PAGE_SIZE inp pageNum = Some (inp', rep) →
  Z.of_nat (length (vTraceData inp)) ≤ INT32_MAX →
  indep (readBD rep) + depShort (readBD rep) + depLong (readBD rep)
    = requestsOf true (vTraceData inp) ∧
  indep (writeBD rep) + depShort (writeBD rep) + depLong (writeBD rep)
    = requestsOf false (vTraceData inp) ∧
  indep (readBD rep) + depShort (readBD rep) + depLong (readBD rep)
  + indep (writeBD rep) + depShort (writeBD rep) + depLong (writeBD rep)
    = Z.of_nat (length (vTraceData inp)) ∧
  analyzeHotWrite PAGE_SIZE (vTraceData inp) (mWriteCentric inp)
    = Some (hotWrite rep).
Proof.
  rewrite analyze_eq. intros Hrun Hlen.
  destruct (analyzeHotWrite PAGE_SIZE (vTraceData inp) (mWriteCentric inp))
    as [hot|] eqn:Hhot; [|discriminate].
  cbn in Hrun. injection Hrun as <- <-. cbn [readBD writeBD hotWrite].
  pose proof (requestsOf_both (vTraceData inp)) as Hboth.
  pose proof (tally_partition true (mReadCentric inp) (vTraceData inp)) as Hr.
  pose proof (tally_partition false (mWriteCentric inp) (vTraceData inp))
    as Hw.
  assert (0 ≤ requestsOf true (vTraceData inp)) by (unfold requestsOf; lia).
  assert (0 ≤ requestsOf false (vTraceData inp)) by (unfold requestsOf; lia).
  pose proof (tally_nonneg true (mReadCentric inp) Independent
                (vTraceData inp)).
  pose proof (tally_nonneg true (mReadCentric inp) DepShort (vTraceData inp)).
  pose proof (tally_nonneg true (mReadCentric inp) DepLong (vTraceData inp)).
  pose proof (tally_nonneg false (mWriteCentric inp) Independent
                (vTraceData inp)).
  pose proof (tally_nonneg false (mWriteCentric inp) DepShort
                (vTraceData inp)).
  pose proof (tally_nonneg false (mWriteCentric inp) DepLong
                (vTraceData inp)).
  rewrite !analyzeDependTypes_counts
    by (unfold counters_fit, INT32_MIN; cbn; lia).
  cbn. repeat split; lia.
Qed.

Lemma report_counts_every_request_witness :
  let rep :=
    mkReport (mkCounters 1 2 1) (mkCounters 0 1 1) ([1; 2; 3], [1; 1; 1]) in
  indep (readBD rep) + depShort (readBD rep) + depLong (readBD rep)
  + indep (writeBD rep) + depShort (writeBD rep) + depLong (writeBD rep)
    = 6.
Proof.
  cbv zeta.
  assert (Hrun : analyze 4096 sampleInputs 0 =
                 Some (sampleInputs,
                       mkReport (mkCounters 1 2 1) (mkCounters 0 1 1)
                         ([1; 2; 3], [1; 1; 1])))
    by (vm_compute; reflexivity).
  assert (Hlen : Z.of_nat (length (vTraceData sampleInputs)) ≤ INT32_MAX)
    by (vm_compute; discriminate).
  exact (proj1 (proj2 (proj2
    (report_counts_every_request 4096 sampleInputs sampleInputs 0 _
       Hrun Hlen)))).
Defined.

(** ** Page spans *)

(** X10. A request that starts at a block that is not negative, with a
    length that is not negative, the sum of the two being within the 64
    bits it is formed in, gets at least one counter and at most two more
    than its length holds whole pages. *)
Theorem page_span_bounds (PAGE_SIZE : Z) (t : TraceData) :
  0 < PAGE_SIZE → 0 ≤ sLBA t → 0 ≤ nLB t → sLBA t + nLB t ≤ INT64_MAX →
  1 ≤ pageNumOf PAGE_SIZE t ≤ nLB t `div` PAGE_SIZE + 2.
Proof.
  intros Hp Hs Hn Hsum. unfold pageNumOf, pageEndOf, pageStartOf.
  rewrite wrap64_in_range by lia.
  rewrite !Z.quot_div_nonneg by lia.
  assert (sLBA t `div` PAGE_SIZE ≤ (sLBA t + nLB t) `div` PAGE_SIZE)
    by (apply Z.div_le_mono; lia).
  assert ((sLBA t + nLB t) `div` PAGE_SIZE
          < sLBA t `div` PAGE_SIZE + nLB t `div` PAGE_SIZE + 2).
  { apply Z.div_lt_upper_bound; [lia|].
    pose proof (Z.div_mod (sLBA t) PAGE_SIZE).
    pose proof (Z.div_mod (nLB t) PAGE_SIZE).
    pose proof (Z.mod_pos_bound (sLBA t) PAGE_SIZE).
    pose proof (Z.mod_pos_bound (nLB t) PAGE_SIZE).
    nia. }
  lia.
Qed.

Lemma page_span_bounds_witness :
  1 ≤ pageNumOf 4096 (mkTraceData 0 false 4095 2) ≤ 2 `div` 4096 + 2.
Proof.
  apply (page_span_bounds 4096 (mkTraceData 0 false 4095 2));
    unfold INT64_MAX; cbn; lia.
Defined.

(** X11. For a request whose start is not negative, whose length is at
    least 1 and whose sum of the two is within the 64 bits it is formed in,
    the last page of the span is the page of the block that follows the
    request: it is the page of the last block of the request, and the page
    after that one when the request ends on a page boundary. *)
Theorem page_end_is_page_after_last_block (PAGE_SIZE : Z) (t : TraceData) :
  0 < PAGE_SIZE → 0 ≤ sLBA t → 1 ≤ nLB t → sLBA t + nLB t ≤ INT64_MAX →
  pageEndOf PAGE_SIZE t =
  (sLBA t + nLB t - 1) `div` PAGE_SIZE
  + (if decide ((sLBA t + nLB t) `mod` PAGE_SIZE = 0) then 1 else 0).
Proof.
  intros Hp Hs Hn Hsum. unfold pageEndOf.
  rewrite wrap64_in_range by lia.
  rewrite Z.quot_div_nonneg by lia.
  pose proof (Z.div_mod (sLBA t + nLB t) PAGE_SIZE) as Hdm.
  pose proof (Z.mod_pos_bound (sLBA t + nLB t) PAGE_SIZE) as Hr.
  set (q := (sLBA t + nLB t) `div` PAGE_SIZE) in *.
  set (r := (sLBA t + nLB t) `mod` PAGE_SIZE) in *.
  case_decide as Hz.
  - rewrite <- (Z.div_unique (sLBA t + nLB t - 1) PAGE_SIZE (q - 1)
                  (PAGE_SIZE - 1)); [lia | lia | nia].
  - rewrite <- (Z.div_unique (sLBA t + nLB t - 1) PAGE_SIZE q (r - 1));
      [lia | lia | nia].
Qed.

Lemma page_end_is_page_after_last_block_witness :
  pageEndOf 4096 (mkTraceData 0 false 0 8192) =
  (0 + 8192 - 1) `div` 4096
  + (if decide ((0 + 8192) `mod` 4096 = 0) then 1 else 0).
Proof.
  apply (page_end_is_page_after_last_block 4096
           (mkTraceData 0 false 0 8192)); unfold INT64_MAX; cbn; lia.
Defined.

(** ** What the simulator reads of a request *)

Lemma forM_ext {A S : Type} (body body' : A → S → option S) (l : list A)
  (s : S) :
  (∀ x s, body x s = body' x s) → forM body l s = forM body' l s.
Proof.
  intros Hext. revert s. induction l as [|x l IH]; intros s; [reflexivity|].
  cbn. rewrite Hext. destruct (body' x s); [apply IH | reflexivity].
Qed.

Section Extents.

Variable PAGE_SIZE : Z.
Variables v v' : list TraceData.
Hypothesis Hextent : extent <$> v = extent <$> v'.

Lemma extent_lookup (i : nat) :
  match v !! i, v' !! i with
  | Some t, Some t' =>
      pageStartOf PAGE_SIZE t = pageStartOf PAGE_SIZE t' ∧
      pageEndOf PAGE_SIZE t = pageEndOf PAGE_SIZE t'
  | None, None => True
  | _, _ => False
  end.
Proof.
  assert ((extent <$> v) !! i = (extent <$> v') !! i) as Hi
    by by rewrite Hextent.
  rewrite !list_lookup_fmap in Hi.
  destruct (v !! i) as [t|], (v' !! i) as [t'|]; cbn in Hi;
    try discriminate; [|done].
  injection Hi as Hs Hn. unfold pageStartOf, pageEndOf. by rewrite Hs, Hn.
Qed.

Lemma simulateRead_extent (pageStart pageEnd : Z) (read : nat)
  (rc : list Z) :
  simulateRead PAGE_SIZE v pageStart pageEnd read rc =
  simulateRead PAGE_SIZE v' pageStart pageEnd read rc.
Proof.
  unfold simulateRead. pose proof (extent_lookup read) as Hr.
  destruct (v !! read) as [t|], (v' !! read) as [t'|]; try done.
  cbn. destruct Hr as [-> ->]. reflexivity.
Qed.

Lemma simulateWrite_extent (write : nat * gset nat) (total : list Z) :
  simulateWrite PAGE_SIZE v write total =
  simulateWrite PAGE_SIZE v' write total.
Proof.
  unfold simulateWrite. pose proof (extent_lookup write.1) as Hw.
  destruct (v !! write.1) as [t|], (v' !! write.1) as [t'|]; try done.
  cbn. destruct Hw as [-> ->]. unfold simulatePages.
  destruct (new_int32 _) as [rc0|]; [|reflexivity]. cbn.
  destruct (for_int _ _ rc0) as [rc1|]; [|reflexivity]. cbn.
  rewrite (forM_ext (simulateRead PAGE_SIZE v _ _)
             (simulateRead PAGE_SIZE v' (pageStartOf PAGE_SIZE t')
                (pageEndOf PAGE_SIZE t'))); [reflexivity|].
  intros read rc. apply simulateRead_extent.
Qed.

(** X12. The simulator reads of a request only its start address and its
    length: it never looks at the [id] or the [isRead] field, so two traces
    that agree on the addresses, position by position, give the same
    histogram. In particular a key of the write-centric map that is the
    position of a read is simulated like a write. *)
Theorem hot_write_reads_extents_only (m : Centric) :
  analyzeHotWrite PAGE_SIZE v m = analyzeHotWrite PAGE_SIZE v' m.
Proof.
  unfold analyzeHotWrite, hotWriteCounts.
  rewrite (forM_ext (simulateWrite PAGE_SIZE v) (simulateWrite PAGE_SIZE v'));
    [reflexivity|].
  intros write total. apply simulateWrite_extent.
Qed.

End Extents.

Lemma hot_write_reads_extents_only_witness :
  analyzeHotWrite 4096 sampleTrace sampleWriteCentric =
  analyzeHotWrite 4096
    [ mkTraceData 9 true 0 8191;
      mkTraceData 9 false 0 8192;
      mkTraceData 9 false 0 8192;
      mkTraceData 9 false 4096 100;
      mkTraceData 9 false 100000 8;
      mkTraceData 9 true 4100 10 ]
    sampleWriteCentric.
Proof.
  apply (hot_write_reads_extents_only 4096 sampleTrace). reflexivity.
Defined.

(** ** A read that misses the write *)

Section MissingRead.

Variable PAGE_SIZE : Z.
Variable v : list TraceData.
Variables pageStart pageEnd : Z.

(** X13. Adding to the dependent set of a write a read whose page span
    misses the span of the write changes none of the counters of the
    write. *)
Theorem missing_read_changes_no_counter (reads : gset nat) (read : nat)
  (r : TraceData) :
  0 ≤ pageEnd - pageStart + 1 ≤ INT32_MAX →
  set_Forall (λ read, is_Some (v !! read)) reads →
  Z.of_nat (size ({[read]} ∪ reads)) ≤ INT32_MAX →
  v !! read = Some r →
  readEndOverlap pageEnd (pageEndOf PAGE_SIZE r)
  < readStartOverlap pageStart (pageStartOf PAGE_SIZE r) →
  simulatePages PAGE_SIZE v pageStart pageEnd ({[read]} ∪ reads) =
  simulatePages PAGE_SIZE v pageStart pageEnd reads.
Proof.
  intros Hn Hreads Hsize Hr Hmiss.
  assert (size reads ≤ size ({[read]} ∪ reads))%nat as Hsub
    by (apply subseteq_size, union_subseteq_r).
  destruct (simulatePages_count PAGE_SIZE v pageStart pageEnd
              ({[read]} ∪ reads) Hn) as (rc1 & -> & Hlen1 & Hrc1);
    [|done|].
  { intros x Hx. apply elem_of_union in Hx as [Hx|Hx]; [|by apply Hreads].
    apply elem_of_singleton in Hx as ->. by eexists. }
  destruct (simulatePages_count PAGE_SIZE v pageStart pageEnd reads Hn
              Hreads) as (rc2 & -> & Hlen2 & Hrc2); [lia|].
  f_equal. apply list_eq. intros j.
  destruct (decide (j < length rc1)%nat) as [Hj|Hj].
  - rewrite (Hrc1 j Hj), (Hrc2 j) by lia.
    rewrite !filter_set_in_order. do 3 f_equal.
    apply set_eq. intros x. rewrite !elem_of_filter, elem_of_union.
    split; [|tauto]. intros [Hcov [Hx|Hx]]; [|done].
    apply elem_of_singleton in Hx as ->. exfalso.
    unfold covers in Hcov. rewrite Hr in Hcov. unfold in_overlap in Hcov.
    lia.
  - rewrite !lookup_ge_None_2 by lia. reflexivity.
Qed.

End MissingRead.

(** ** The further properties on the sample trace *)

Lemma sample_reads_in_trace :
  set_Forall (λ read, is_Some (sampleTrace !! read))
    ({[1%nat; 2%nat; 3%nat]} : gset nat).
Proof. apply (bool_decide_unpack _). vm_compute. exact I. Defined.

Lemma counter_is_number_of_covering_reads_witness :
  ∃ rc, simulatePages 4096 sampleTrace 0 1 {[1%nat; 2%nat; 3%nat]} = Some rc ∧
        Z.of_nat (length rc) = 1 - 0 + 1 ∧
        ∀ j : nat, (j < length rc)%nat →
          rc !! j =
          Some (Z.of_nat (size
                  (filter (covers 4096 sampleTrace 0 1 j)
                     ({[1%nat; 2%nat; 3%nat]} : gset nat)))).
Proof.
  apply (counter_is_number_of_covering_reads 4096 sampleTrace 0 1
           {[1%nat; 2%nat; 3%nat]}).
  - vm_compute. split; discriminate.
  - exact sample_reads_in_trace.
  - vm_compute. discriminate.
Defined.

Lemma full_cover_counts_every_read_witness :
  simulatePages 4096 sampleTrace 0 1 {[1%nat; 2%nat]} =
  Some (replicate (Z.to_nat (1 - 0 + 1))
          (Z.of_nat (size ({[1%nat; 2%nat]} : gset nat)))).
Proof.
  apply (full_cover_counts_every_read 4096 sampleTrace 0 1
           {[1%nat; 2%nat]}).
  - vm_compute. split; discriminate.
  - vm_compute. discriminate.
  - intros read Hin. apply elem_of_union in Hin as [Hin|Hin];
      apply elem_of_singleton in Hin as ->;
      (eexists; split; [reflexivity|]); vm_compute; split; discriminate.
Defined.

Lemma flat_sequence_is_concatenation_witness :
  ∃ rcs, Forall2 (counters_of 4096 sampleTrace)
           (map_in_order Nat.le sampleWriteCentric) rcs ∧
         hotWriteCounts 4096 sampleTrace sampleWriteCentric
         = Some (to_uint32 <$> concat rcs).
Proof.
  apply (flat_sequence_is_concatenation 4096 sampleTrace sampleWriteCentric).
  exact sample_hot_inputs_ok.
Defined.

Lemma rows_are_histogram_witness :
  ∃ counts totals,
    analyzeHotWrite 4096 sampleTrace sampleWriteCentric
    = Some (counts, totals) ∧
    length counts = length totals ∧
    (∀ k n, (k, n) ∈ zip counts totals ↔ n = countOf k [2; 3; 1] ∧ 0 < n) ∧
    (∀ (i j : nat) (a b : Z), (i < j)%nat →
       counts !! i = Some a → counts !! j = Some b → a < b).
Proof.
  apply (rows_are_histogram 4096 sampleTrace sampleWriteCentric [2; 3; 1]).
  - vm_compute. reflexivity.
  - vm_compute. discriminate.
Defined.

Lemma missing_read_changes_no_counter_witness :
  simulatePages 4096 sampleTrace 0 1 ({[4%nat]} ∪ {[1%nat; 2%nat; 3%nat]}) =
  simulatePages 4096 sampleTrace 0 1 {[1%nat; 2%nat; 3%nat]}.
Proof.
  apply (missing_read_changes_no_counter 4096 sampleTrace 0 1
           {[1%nat; 2%nat; 3%nat]} 4 (mkTraceData 4 true 100000 8)).
  - vm_compute. split; discriminate.
  - exact sample_reads_in_trace.
  - vm_compute. discriminate.
  - reflexivity.
  - vm_compute. reflexivity.
Defined.

Lemma counter_within_number_of_reads_witness :
  ∃ rc, simulatePages 4096 sampleTrace 0 1 {[1%nat; 2%nat; 3%nat]} = Some rc ∧
        Z.of_nat (length rc) = 1 - 0 + 1 ∧
        Forall (λ c, 0 ≤ c ≤ Z.of_nat (size ({[1%nat; 2%nat; 3%nat]}
                                               : gset nat))) rc.
Proof.
  apply (counter_within_number_of_reads 4096 sampleTrace 0 1
           {[1%nat; 2%nat; 3%nat]}).
  - vm_compute. split; discriminate.
  - exact sample_reads_in_trace.
  - vm_compute. discriminate.
Defined.

(** ** The dependent requests and the keys of the map *)

Lemma tally_snoc (isRead_ : bool) (m : Centric) (d : DependType)
  (v : list TraceData) (t : TraceData) :
  tally isRead_ m d (v ++ [t]) =
  tally isRead_ m d v
  + (if decide (isRead t = isRead_ ∧ dependType m t = d) then 1 else 0).
Proof.
  unfold tally. rewrite filter_app, length_app.
  rewrite filter_cons, filter_nil. case_decide; cbn [length]; lia.
Qed.

Lemma tally_ext (isRead_ : bool) (m m' : Centric) (d : DependType)
  (v : list TraceData) :
  (∀ t, t ∈ v → dependType m t = dependType m' t) →
  tally isRead_ m d v = tally isRead_ m' d v.
Proof.
  induction v as [|t v IH]; intros Hext; [reflexivity|].
  rewrite !tally_cons, IH.
  - rewrite (Hext t) by apply list_elem_of_here. reflexivity.
  - intros t' Hin. apply Hext. by apply list_elem_of_further.
Qed.

Lemma tally_dependent_keys (isRead_ : bool) (v : list TraceData)
  (m : Centric) :
  (∀ i t, v !! i = Some t → id t = i) →
  (∀ k, is_Some (m !! k) → ∃ t, v !! k = Some t ∧ isRead t = isRead_) →
  tally isRead_ m DepShort v + tally isRead_ m DepLong v
  = Z.of_nat (size m).
Proof.
  revert m. induction v as [|t v IH] using rev_ind; intros m Hid Hkeys.
  - rewrite !tally_nil.
    assert (m = ∅) as ->; [|by rewrite map_size_empty].
    apply map_empty. intros k. apply eq_None_not_Some. intros Hk.
    by destruct (Hkeys k Hk) as (t & Ht & _).
  - assert (id t = length v) as Ht.
    { apply Hid. by rewrite list_lookup_middle. }
    assert (∀ i t', v !! i = Some t' → id t' = i) as Hid'.
    { intros i t' Hi. apply Hid. by apply lookup_app_l_Some. }
    assert (∀ t', t' ∈ v → id t' ≠ length v) as Hlt.
    { intros t' Hin. apply list_elem_of_lookup in Hin as [i Hi].
      rewrite (Hid' i t' Hi). apply lookup_lt_Some in Hi. lia. }
    rewrite !tally_snoc.
    destruct (m !! length v) as [s|] eqn:Hm.
    + assert (dependType m t = DepShort ∨ dependType m t = DepLong) as Hdt.
      { unfold dependType. rewrite Ht, Hm. case_decide; auto. }
      destruct (Hkeys (length v)) as (t' & Ht' & Hdir); [by eexists|].
      rewrite list_lookup_middle in Ht' by done. injection Ht' as <-.
      rewrite (tally_ext isRead_ m (delete (length v) m) DepShort v),
        (tally_ext isRead_ m (delete (length v) m) DepLong v).
      2,3: intros t' Hin; unfold dependType;
           by rewrite lookup_delete_ne by (symmetry; by apply Hlt).
      assert (tally isRead_ (delete (length v) m) DepShort v
              + tally isRead_ (delete (length v) m) DepLong v
              = Z.of_nat (size (delete (length v) m))) as HIH.
      { apply (IH (delete (length v) m) Hid').
        intros k Hk. rewrite lookup_delete_is_Some in Hk.
        destruct Hk as [Hne Hk].
        destruct (Hkeys k Hk) as (t' & Hk' & Hd').
        exists t'. split; [|done].
        apply lookup_snoc_Some in Hk' as [[_ Hk']|[Heq _]]; [done|].
        congruence. }
      rewrite map_size_delete, Hm in HIH.
      assert (size m ≠ 0%nat).
      { intros Hz. apply map_size_empty_inv in Hz. subst m.
        by rewrite lookup_empty in Hm. }
      destruct Hdt as [Hdt|Hdt]; rewrite Hdt;
        repeat case_decide; try (exfalso; intuition congruence); lia.
    + assert (dependType m t = Independent) as Hdt.
      { unfold dependType. by rewrite Ht, Hm. }
      assert (tally isRead_ m DepShort v + tally isRead_ m DepLong v
              = Z.of_nat (size m)) as HIH.
      { apply (IH m Hid').
        intros k Hk. destruct (Hkeys k Hk) as (t' & Hk' & Hd').
        exists t'. split; [|done].
        apply lookup_snoc_Some in Hk' as [[_ Hk']|[Heq _]]; [done|].
        subst k. rewrite Hm in Hk. by destruct Hk. }
      rewrite Hdt.
      repeat case_decide; try (exfalso; intuition congruence); lia.
Qed.

(** X14. When each request carries its position as its id and every key of
    the map is the position of a request of the direction asked for, the
    requests counted singly- or multiply-dependent are as many as the map
    has keys; for the write-centric map, as many as the writes the simulator
    goes through. The trace is no longer than an [int32_t] counts. *)
Theorem dependent_requests_are_the_keys (v : list TraceData) (m : Centric)
  (isRead_ : bool) :
  (∀ i t, v !! i = Some t → id t = i) →
  (∀ k, is_Some (m !! k) → ∃ t, v !! k = Some t ∧ isRead t = isRead_) →
  Z.of_nat (length v) ≤ INT32_MAX →
  let out := (analyzeDependTypes v m isRead_ zeroCounters).2 in
  depShort out + depLong out = Z.of_nat (size m) ∧
  length (map_in_order Nat.le m) = size m.
Proof.
  intros Hid Hkeys Hlen out. subst out. split.
  - pose proof (tally_partition isRead_ m v) as Hsum.
    pose proof (requestsOf_both v) as Hboth.
    assert (0 ≤ requestsOf true v) by (unfold requestsOf; lia).
    assert (0 ≤ requestsOf false v) by (unfold requestsOf; lia).
    assert (requestsOf isRead_ v ≤ Z.of_nat (length v))
      by (destruct isRead_; lia).
    pose proof (tally_nonneg isRead_ m Independent v).
    pose proof (tally_nonneg isRead_ m DepShort v).
    pose proof (tally_nonneg isRead_ m DepLong v).
    rewrite analyzeDependTypes_counts
      by (unfold counters_fit, INT32_MIN; cbn; lia).
    cbn. by apply tally_dependent_keys.
  - unfold map_in_order. rewrite merge_sort_Permutation.
    apply length_map_to_list.
Qed.

Lemma sample_ids_are_positions :
  ∀ i t, sampleTrace !! i = Some t → id t = i.
Proof.
  intros i t Ht. unfold sampleTrace in Ht.
  do 6 (destruct i as [|i]; [by injection Ht as <-|]). done.
Defined.

Lemma dependent_requests_are_the_keys_witness :
  let out :=
    (analyzeDependTypes sampleTrace sampleWriteCentric false zeroCounters).2 in
  depShort out + depLong out = Z.of_nat (size sampleWriteCentric) ∧
  length (map_in_order Nat.le sampleWriteCentric) = size sampleWriteCentric.
Proof.
  apply (dependent_requests_are_the_keys sampleTrace sampleWriteCentric
           false).
  - exact sample_ids_are_positions.
  - intros k [s Hk]. unfold sampleWriteCentric in Hk.
    apply lookup_insert_Some in Hk as [[<- _]|[_ Hk]];
      [eexists; split; reflexivity|].
    apply lookup_singleton_Some in Hk as [<- _].
    eexists; split; reflexivity.
  - vm_compute. discriminate.
Defined.
